(** * tiktok_uploader.py: progress record and transfer pass

    A shallow embedding of [src/tiktok_uploader.py].  One call of [main]
    is a pass: it loads the history file, lists the account's videos,
    picks the window (one video, or all remaining ones) and, for each
    video of the window, skips it, or downloads it, uploads it and
    records it in the history file.

    Everything the script obtains from outside (yt-dlp, the YouTube
    client, the file system) is read from an environment [env]; the
    content of the history file and the calls made to the collaborators
    are threaded explicitly through the pass. *)

From stdpp Require Import base option list gmap strings.
From Stdlib Require Import ZArith Lia.

Local Open Scope Z_scope.
Local Open Scope nat_scope.

(** ** Python values *)

(** A Python [str] is a sequence of code points; [len] counts them and
    slicing cuts between them. *)
Abbreviation str := (list N).

(** An ASCII literal of the source, as code points. *)
Definition lit (s : string) : str :=
  Ascii.N_of_ascii <$> String.list_ascii_of_string s.

(** The dicts the script builds or receives with string values: the
    entries yt-dlp returns and the video descriptors made from them. *)
Abbreviation entry := (gmap string (list N)).
Abbreviation video := (gmap string (list N)).

(** Exceptions that leave a function of the script. *)
Inductive exn :=
| JSONDecodeError
| KeyError (key : string)
| IndexError
| OSError
| AuthError.

(** [l[i]] for a Python list: a negative index counts from the end, an
    index outside [-len, len) raises. *)
Definition py_index {A} (l : list A) (i : Z) : option A :=
  if (0 <=? i)%Z then l !! Z.to_nat i
  else if (- Z.of_nat (length l) <=? i)%Z
       then l !! Z.to_nat (Z.of_nat (length l) + i)
       else None.

(** [l[i:]] for a Python list: a negative start counts from the end and
    is clamped at the beginning; a start past the end gives []. *)
Definition py_slice_from {A} (l : list A) (i : Z) : list A :=
  if (0 <=? i)%Z then drop (Z.to_nat i) l
  else drop (Z.to_nat (Z.max 0 (Z.of_nat (length l) + i))) l.

(** ** Configuration (lines 13-21) *)

Definition VIDEOS_DIR : str := lit "tiktok_videos".

(** ** The history file (lines 28-38) *)

(** The dict kept in [uploaded_videos.json].  Either key may be missing
    from a file written by hand or by another version; a key that is
    present is taken to hold what [save_uploaded_history] writes there
    (an int, a list of strings). *)
Record History := mkHistory {
  h_current_index : option Z;
  h_uploaded_ids : option (list str);
}.

(** What is at the path [UPLOAD_HISTORY_FILE]: nothing, bytes that
    [json.load] rejects, or a JSON object. *)
Inductive file :=
| Absent
| Malformed
| Stored (h : History).

(** [load_uploaded_history()], lines 28-33: the file is parsed whenever
    it exists; the literal of line 33 is returned only when it does
    not. *)
Definition load_uploaded_history (d : file) : exn + History :=
  match d with
  | Absent => inr (mkHistory (Some 0%Z) (Some []))
  | Malformed => inl JSONDecodeError
  | Stored h => inr h
  end.

(** How one [open(..., 'w')] + [json.dump] ends: the record is written;
    the file cannot be opened (it is left as it was); or the write breaks
    after the file was truncated (what is left does not parse). *)
Inductive write_result :=
| Written
| OpenFailed
| WriteFailed.

(** [save_uploaded_history(history)], lines 35-38: the new content of
    the file, and whether the call raised. *)
Definition save_uploaded_history (w : write_result) (h : History) (d : file)
  : file * option exn :=
  match w with
  | Written => (Stored h, None)
  | OpenFailed => (d, Some OSError)
  | WriteFailed => (Malformed, Some OSError)
  end.

(** ** The environment of one pass *)

(** The answers of the collaborators during one pass.  Inside the loop
    at most one call of each kind is made per iteration, so the answers
    are indexed by the loop counter [idx] of line 222. *)
Record env := mkEnv {
  (** [os.getenv('TIKTOK_USERNAME', ...)], line 14 *)
  TIKTOK_USERNAME : str;
  (** [ydl.extract_info], line 83: [None] when it (or the import) raises,
      [Some None] when the result has no 'entries' key *)
  extract_info : option (option (list entry));
  (** whether [get_youtube_service()] returns a service, line 207 *)
  youtube_service : bool;
  (** [os.path.exists(output_file)], line 111 *)
  path_exists : nat → bool;
  (** whether [ydl.download] returns, line 129 *)
  ydl_download : nat → bool;
  (** the id in the response of the insert request, lines 161-174, or
      [None] when building or sending the request raises *)
  videos_insert : nat → option str;
  (** how the write of line 37-38 ends *)
  json_dump : nat → write_result;
}.

(** ** Enumeration (lines 64-103) *)

(** Line 91: [a or b or f"..."]; [None] and the empty string are falsy,
    and a missing id is formatted as the text None. *)
Definition entry_url (E : env) (e : entry) : str :=
  match e !! "url" with
  | Some (c :: u) => c :: u
  | _ =>
    match e !! "webpage_url" with
    | Some (c :: u) => c :: u
    | _ => lit "https://www.tiktok.com/@" ++ TIKTOK_USERNAME E
           ++ lit "/video/" ++ default (lit "None") (e !! "id")
    end
  end.

(** The dict literal of lines 88-92: three keys. *)
Definition video_of_entry (E : env) (e : entry) : video :=
  <["id" := default (lit "unknown") (e !! "id")]>
  (<["title" := default (lit "TikTok Video") (e !! "title")]>
  {["url" := entry_url E e]}).

(** [get_all_tiktok_videos()]: oldest first; [[]] on any exception. *)
Definition get_all_tiktok_videos (E : env) : list video :=
  match extract_info E with
  | None => []
  | Some None => reverse []
  | Some (Some entries) => reverse (video_of_entry E <$> entries)
  end.

(** ** Download (lines 105-137) *)

(** [os.path.join(VIDEOS_DIR, f"tiktok_{video_id}.mp4")], line 108, with
    the POSIX separator. *)
Definition output_file (video_id : str) : str :=
  VIDEOS_DIR ++ lit "/" ++ lit "tiktok_" ++ video_id ++ lit ".mp4".

(** [download_tiktok_video(video_info)]: [inl] when it raises (the
    lookup of line 107 is outside the [try]), [inr None] when it returns
    [None] (anything raised inside the [try], the lookup of 'url'
    included), else the path. *)
Definition download_tiktok_video (E : env) (idx : nat) (video_info : video)
  : exn + option str :=
  match video_info !! "id" with
  | None => inl (KeyError "id")
  | Some video_id =>
    let out := output_file video_id in
    if path_exists E idx then inr (Some out)
    else match video_info !! "url" with
         | None => inr None
         | Some _ => if ydl_download E idx then inr (Some out) else inr None
         end
  end.

(** ** Upload (lines 139-174) *)

Record snippet := mkSnippet {
  title : str;
  description : str;
  tags : list str;
  categoryId : str;
}.

Record status := mkStatus {
  privacyStatus : str;
  selfDeclaredMadeForKids : bool;
}.

Record body := mkBody {
  body_snippet : snippet;
  body_status : status;
}.

(** Line 144. *)
Definition limit_title (t : str) : str :=
  if decide (100 < length t) then take 97 t ++ lit "..." else t.

(** The text appended on line 149; the character after the two line
    feeds is U+1F4F1. *)
Definition promo_suffix : str :=
  [10; 10; 128241]%N ++ lit " Share and subscribe" ++ [10]%N ++ lit "#Shorts".

(** Lines 146-157. *)
Definition request_body (E : env) (t d : str) : body :=
  mkBody
    (mkSnippet (limit_title t) (d ++ promo_suffix)
               [lit "TikTok"; lit "shorts"; TIKTOK_USERNAME E] (lit "22"))
    (mkStatus (lit "public") false).

(** [upload_to_youtube(youtube, video_file, title, description)]: the
    request it sends and the remote id it returns, [None] when it
    raises.  The loop of lines 168-171 is taken to end: the client
    answers or raises. *)
Definition upload_to_youtube (E : env) (idx : nat) (video_file t d : str)
  : body * option str :=
  (request_body E t d, videos_insert E idx).

(** ** The pass (lines 176-290) *)

(** The four per-video messages of the loop. *)
Inductive message :=
| AlreadyUploaded                      (* line 232 *)
| FailedToDownload                     (* line 241 *)
| SuccessfullyUploaded (done : nat)    (* line 261 *)
| ErrorUploading.                      (* line 272 *)

(** What a pass does that can be seen from outside, in order. *)
Inductive event :=
| Materialize (v : video)                          (* line 238 *)
| Publish (v : video) (video_file : str) (b : body) (* line 247 *)
| Save (h : History)                               (* lines 234, 258 *)
| Sleep (seconds : nat)                            (* line 269 *)
| Print (m : message).

(** The file, the calls made so far, and the variables of [main] that
    change in the loop.

    [history['uploaded_ids']], when the key is bound, is the very list
    object that the variable [uploaded_ids] names: [history.get] on line
    192 hands out the dict's own list, and line 256 binds the key to the
    variable's list.  So the list is kept once, in [uploaded_ids], and
    [history_ids] records whether the dict has the key; [append] on line
    255 is then seen through both names. *)
Record state := mkState {
  disk : file;
  trace : list event;
  history_index : option Z;
  history_ids : bool;
  uploaded_ids : list str;
  successful_uploads : nat;
  failed_uploads : nat;
}.

(** The dict [history] as [json.dump] sees it. *)
Definition history_of (s : state) : History :=
  mkHistory (history_index s)
            (if history_ids s then Some (uploaded_ids s) else None).

Definition emit (e : event) (s : state) : state :=
  mkState (disk s) (trace s ++ [e]) (history_index s) (history_ids s)
          (uploaded_ids s) (successful_uploads s) (failed_uploads s).

(** [history['current_index'] = z] *)
Definition set_index (z : Z) (s : state) : state :=
  mkState (disk s) (trace s) (Some z) (history_ids s)
          (uploaded_ids s) (successful_uploads s) (failed_uploads s).

(** [uploaded_ids.append(i); history['uploaded_ids'] = uploaded_ids] *)
Definition append_id (i : str) (s : state) : state :=
  mkState (disk s) (trace s) (history_index s) true
          (uploaded_ids s ++ [i]) (successful_uploads s) (failed_uploads s).

(** [successful_uploads += 1] *)
Definition count_success (s : state) : state :=
  mkState (disk s) (trace s) (history_index s) (history_ids s)
          (uploaded_ids s) (S (successful_uploads s)) (failed_uploads s).

(** [failed_uploads += 1] *)
Definition count_failed (s : state) : state :=
  mkState (disk s) (trace s) (history_index s) (history_ids s)
          (uploaded_ids s) (successful_uploads s) (S (failed_uploads s)).

(** [save_uploaded_history(history)] inside the loop. *)
Definition save (E : env) (idx : nat) (s : state) : state * option exn :=
  let h := history_of s in
  let '(d, r) := save_uploaded_history (json_dump E idx) h (disk s) in
  (mkState d (trace s ++ [Save h]) (history_index s) (history_ids s)
           (uploaded_ids s) (successful_uploads s) (failed_uploads s), r).

(** One iteration either falls through to the next one ([continue], or
    the end of the body) or leaves [main] with an exception. *)
Inductive step :=
| Next (s : state)
| Abort (e : exn) (s : state).

Definition FALLBACK_DESCRIPTION : str := lit "Check out my other content!".

(** The body of the loop, lines 223-274; [n] is
    [len(videos_to_process)]. *)
Definition loop_body (E : env) (upload_all : bool) (current_index : Z)
    (n idx : nat) (video_to_upload : video) (s : state) : step :=
  let actual_index := (current_index + Z.of_nat idx)%Z in
  match video_to_upload !! "title" with
  | None => Abort (KeyError "title") s
  | Some video_title =>
  match video_to_upload !! "id" with
  | None => Abort (KeyError "id") s
  | Some video_id =>
    if bool_decide (video_id ∈ uploaded_ids s) then
      (* lines 231-235 *)
      let s := emit (Print AlreadyUploaded) s in
      let s := set_index (actual_index + 1)%Z s in
      match save E idx s with
      | (s, Some e) => Abort e s
      | (s, None) => Next s
      end
    else
      (* lines 238-243 *)
      let s := emit (Materialize video_to_upload) s in
      match download_tiktok_video E idx video_to_upload with
      | inl e => Abort e s
      | inr None | inr (Some []) =>
        Next (count_failed (emit (Print FailedToDownload) s))
      | inr (Some video_file) =>
        (* lines 246-274 *)
        let '(b, r) :=
          upload_to_youtube E idx video_file video_title
            (default FALLBACK_DESCRIPTION (video_to_upload !! "description")) in
        let s := emit (Publish video_to_upload video_file b) s in
        match r with
        | None => Next (count_failed (emit (Print ErrorUploading) s))
        | Some youtube_id =>
          let s := append_id video_id s in
          let s := set_index (actual_index + 1)%Z s in
          match save E idx s with
          | (s, Some e) =>
            (* the [except Exception] of line 271 *)
            Next (count_failed (emit (Print ErrorUploading) s))
          | (s, None) =>
            let s := count_success s in
            let s := emit (Print (SuccessfullyUploaded (successful_uploads s))) s in
            if upload_all && bool_decide (Z.of_nat idx < Z.of_nat n - 1)%Z
            then Next (emit (Sleep 10) s)
            else Next s
          end
        end
      end
  end end.

(** [for idx, video_to_upload in enumerate(videos_to_process)], from
    counter [idx] on. *)
Fixpoint loop (E : env) (upload_all : bool) (current_index : Z)
    (n idx : nat) (videos : list video) (s : state) : step :=
  match videos with
  | [] => Next s
  | video_to_upload :: rest =>
    match loop_body E upload_all current_index n idx video_to_upload s with
    | Next s' => loop E upload_all current_index n (S idx) rest s'
    | Abort e s' => Abort e s'
    end
  end.

(** The last lines of the summary, 284-290. *)
Inductive closing :=
| AllVideosUploaded (total : nat)
| Remaining (remaining : Z) (run_again : bool).

(** What a pass that returns has printed at its end. *)
Inductive report :=
| NoVideosFound                                    (* line 198 *)
| AllHaveBeenUploaded (total : nat)                (* line 203 *)
| UploadSummary (successful failed : nat)          (* lines 277-290 *)
                (progress : Z) (total : nat) (c : closing).

Inductive outcome :=
| Returned (r : report)
| Raised (e : exn).

(** Lines 276-290.  [history['current_index']] on line 282 is a plain
    subscript: it raises when the key was neither loaded nor set. *)
Definition summary (upload_all : bool) (all_videos : list video)
    (s : state) : outcome :=
  match history_index s with
  | None => Raised (KeyError "current_index")
  | Some c =>
    let total := length all_videos in
    Returned (UploadSummary (successful_uploads s) (failed_uploads s) c total
      (if bool_decide (Z.of_nat total ≤ c)%Z then AllVideosUploaded total
       else Remaining (Z.of_nat total - c)%Z (negb upload_all)))
  end.

(** Lines 190-192: the dict and the two variables read from it. *)
Definition initial_state (d : file) (history : History) : state :=
  mkState d [] (h_current_index history)
          (bool_decide (is_Some (h_uploaded_ids history)))
          (default [] (h_uploaded_ids history)) 0 0.

Definition initial_index (history : History) : Z :=
  default 0%Z (h_current_index history).

(** Lines 210-216. *)
Definition videos_to_process (upload_all : bool) (all_videos : list video)
    (current_index : Z) : exn + list video :=
  if upload_all then inr (py_slice_from all_videos current_index)
  else match py_index all_videos current_index with
       | Some v => inr [v]
       | None => inl IndexError
       end.

(** One pass: how it ended, the file it leaves, the calls it made. *)
Record run := mkRun {
  result : outcome;
  disk_after : file;
  calls : list event;
}.

(** [main(upload_all)] started with [d] in the history file. *)
Definition main (E : env) (upload_all : bool) (d : file) : run :=
  match load_uploaded_history d with
  | inl e => mkRun (Raised e) d []
  | inr history =>
    let current_index := initial_index history in
    let s := initial_state d history in
    let all_videos := get_all_tiktok_videos E in
    match all_videos with
    | [] => mkRun (Returned NoVideosFound) d []
    | _ :: _ =>
      if bool_decide (Z.of_nat (length all_videos) ≤ current_index)%Z
      then mkRun (Returned (AllHaveBeenUploaded (length all_videos))) d []
      else if negb (youtube_service E) then mkRun (Raised AuthError) d []
      else
        match videos_to_process upload_all all_videos current_index with
        | inl e => mkRun (Raised e) d []
        | inr videos =>
          match loop E upload_all current_index (length videos) 0 videos s with
          | Next s' => mkRun (summary upload_all all_videos s') (disk s') (trace s')
          | Abort e s' => mkRun (Raised e) (disk s') (trace s')
          end
        end
    end
  end.

(** Passes run one after the other on the same file, each with its own
    mode and environment: the file left at the end and all the calls. *)
Fixpoint passes (runs : list (env * bool)) (d : file) : file * list event :=
  match runs with
  | [] => (d, [])
  | (E, upload_all) :: rest =>
    let r := main E upload_all d in
    let '(d', t) := passes rest (disk_after r) in
    (d', calls r ++ t)
  end.

(** ** Vocabulary of the statements *)

(** The state an iteration, or a loop, ends in. *)
Definition state_of (r : step) : state :=
  match r with Next s | Abort _ s => s end.

(** The cursor and the ids the next pass would start from, were it
    started on this file (lines 190-192); no cursor when the load
    raises. *)
Definition persisted_index (d : file) : option Z :=
  match load_uploaded_history d with
  | inr h => Some (initial_index h)
  | inl _ => None
  end.

Definition persisted_ids (d : file) : list str :=
  match load_uploaded_history d with
  | inr h => default [] (h_uploaded_ids h)
  | inl _ => []
  end.

(** The video was listed ([V]) and was published with the request that
    [upload_to_youtube] builds from its title and description. *)
Definition published_as (E : env) (V : video → Prop) (ev : event) : Prop :=
  match ev with
  | Publish v f b =>
    V v ∧ ∃ t, v !! "title" = Some t ∧
      b = request_body E t (default FALLBACK_DESCRIPTION (v !! "description"))
  | _ => True
  end.

(** The event is not an upload of the video with id [x]. *)
Definition not_publish_of (x : str) (ev : event) : Prop :=
  match ev with
  | Publish v _ _ => v !! "id" ≠ Some x
  | _ => True
  end.

(** The per-video messages, by the branch that prints them. *)
Definition said_success (ev : event) : bool :=
  match ev with Print (SuccessfullyUploaded _) => true | _ => false end.

Definition said_failure (ev : event) : bool :=
  match ev with
  | Print FailedToDownload | Print ErrorUploading => true
  | _ => false
  end.

Definition said_skip (ev : event) : bool :=
  match ev with Print AlreadyUploaded => true | _ => false end.

Definition count (p : event → bool) (t : list event) : nat :=
  length (List.filter p t).


(** No collaborator fails during the pass. *)
Definition no_failures (E : env) : Prop :=
  youtube_service E = true ∧
  ∀ idx, (path_exists E idx || ydl_download E idx) = true ∧
         is_Some (videos_insert E idx) ∧
         json_dump E idx = Written.

(** Two runs of the loop that differ only in what the file holds, in
    whether the cursor key is bound, and in whether the ids key is bound
    while the list is still empty. *)
Definition same_but_keys (s1 s2 : state) : Prop :=
  trace s1 = trace s2 ∧ uploaded_ids s1 = uploaded_ids s2 ∧
  (history_ids s1 = history_ids s2 ∨ uploaded_ids s1 = []) ∧
  successful_uploads s1 = successful_uploads s2 ∧
  failed_uploads s1 = failed_uploads s2.

Definition same_step (r1 r2 : step) : Prop :=
  match r1, r2 with
  | Next s1, Next s2 => same_but_keys s1 s2
  | Abort e1 s1, Abort e2 s2 => e1 = e2 ∧ same_but_keys s1 s2
  | _, _ => False
  end.

(** The id [x] is in the list of the running pass, and what the pass
    did after the calls [t0] has no upload of [x]. *)
Definition completed_in (x : str) (t0 : list event) (s : state) : Prop :=
  x ∈ uploaded_ids s ∧
  ∃ evs, trace s = t0 ++ evs ∧ Forall (not_publish_of x) evs.

(** The id [x] is in the list of the running pass, the dict holds that
    list, and the file holds [x] or no longer parses. *)
Definition recorded_in (x : str) (s : state) : Prop :=
  x ∈ uploaded_ids s ∧ history_ids s = true ∧
  (disk s = Malformed ∨ x ∈ persisted_ids (disk s)).

(** ** Sample accounts and environments *)

Definition entry_A : entry := <["id" := lit "A"]> {["title" := lit "first"]}.
Definition entry_B : entry := <["id" := lit "B"]> {["title" := lit "second"]}.
Definition entry_C : entry := <["id" := lit "C"]> {["title" := lit "third"]}.

Definition video_A : video :=
  <["id" := lit "A"]> (<["title" := lit "first"]>
  {["url" := lit "https://www.tiktok.com/@someone/video/A"]}).

Definition video_B : video :=
  <["id" := lit "B"]> (<["title" := lit "second"]>
  {["url" := lit "https://www.tiktok.com/@someone/video/B"]}).

(** An account whose listing is [entries] (newest first, as yt-dlp
    gives them), with every collaborator answering. *)
Definition env_ok (entries : list entry) : env :=
  mkEnv (lit "someone") (Some (Some entries)) true
        (λ _, false) (λ _, true) (λ _, Some (lit "yt1")) (λ _, Written).

(** The same, but the download made in iteration [k] fails. *)
Definition env_download_fails (entries : list entry) (k : nat) : env :=
  mkEnv (lit "someone") (Some (Some entries)) true
        (λ _, false) (λ idx, negb (idx =? k)) (λ _, Some (lit "yt1"))
        (λ _, Written).

(** The same, but the upload made in iteration [k] fails. *)
Definition env_upload_fails (entries : list entry) (k : nat) : env :=
  mkEnv (lit "someone") (Some (Some entries)) true
        (λ _, false) (λ _, true)
        (λ idx, if idx =? k then None else Some (lit "yt1"))
        (λ _, Written).

(** The same, but the history file cannot be opened for writing. *)
Definition env_read_only (entries : list entry) : env :=
  mkEnv (lit "someone") (Some (Some entries)) true
        (λ _, false) (λ _, true) (λ _, Some (lit "yt1")) (λ _, OpenFailed).

(** yt-dlp raises: the listing is empty. *)
Definition env_no_listing : env :=
  mkEnv (lit "someone") None true
        (λ _, false) (λ _, true) (λ _, Some (lit "yt1")) (λ _, Written).

(** ** Vocabulary of the further properties *)

Definition is_sleep (ev : event) : bool :=
  match ev with Sleep _ => true | _ => false end.

Definition is_publish (ev : event) : bool :=
  match ev with Publish _ _ _ => true | _ => false end.

Definition is_materialize (ev : event) : bool :=
  match ev with Materialize _ => true | _ => false end.

(** The event is not the save of a record that lacks a key. *)
Definition complete_save (ev : event) : Prop :=
  match ev with
  | Save h => is_Some (h_current_index h) ∧ is_Some (h_uploaded_ids h)
  | _ => True
  end.

(** The file is [d], or does not parse, or holds a record with both
    keys. *)
Definition complete_or (d d' : file) : Prop :=
  d' = d ∨ d' = Malformed ∨
  ∃ c ids, d' = Stored (mkHistory (Some c) (Some ids)).

(** The dict has the ids key unless the list is still empty, the saves
    made so far are complete, and so is the file unless untouched. *)
Definition writes_complete (d : file) (s : state) : Prop :=
  (history_ids s = true ∨ uploaded_ids s = []) ∧
  Forall complete_save (trace s) ∧
  complete_or d (disk s).

(** The id list of the pass extends [l0], and so does the list in the
    file when it parses. *)
Definition ids_extend (l0 : list str) (s : state) : Prop :=
  l0 `prefix_of` uploaded_ids s ∧
  (history_ids s = true ∨ uploaded_ids s = []) ∧
  (disk s = Malformed ∨ l0 `prefix_of` persisted_ids (disk s)).

(** Neither the id list of the pass nor the one in the file has an id
    twice. *)
Definition ids_distinct (s : state) : Prop :=
  NoDup (uploaded_ids s) ∧
  (history_ids s = true ∨ uploaded_ids s = []) ∧
  NoDup (persisted_ids (disk s)).

(** A delay is only made after a success, and never in single mode. *)
Definition sleeps_follow_success (upload_all : bool) (s : state) : Prop :=
  count is_sleep (trace s) ≤ count said_success (trace s) ∧
  (upload_all = false → count is_sleep (trace s) = 0).

(** Nothing was downloaded or uploaded, and the ids [l0] are in the
    list of the pass. *)
Definition idle_with (l0 : list str) (s : state) : Prop :=
  l0 ⊆ uploaded_ids s ∧
  count is_materialize (trace s) = 0 ∧ count is_publish (trace s) = 0.

(** Every upload made so far was of the file named after the id of its
    video, after a download of that video. *)
Definition uploads_follow_downloads (s : state) : Prop :=
  ∀ v f b, Publish v f b ∈ trace s →
    (∃ i, v !! "id" = Some i ∧ f = output_file i) ∧
    Materialize v ∈ trace s.

(** At most one success so far, and then with the id [x] in the list of
    the pass. *)
Definition one_success_for (x : str) (s : state) : Prop :=
  count said_success (trace s) ≤ 1 ∧
  (count said_success (trace s) = 1 → x ∈ uploaded_ids s).

(** In every iteration the download fails, or else the upload does. *)
Definition every_attempt_fails (E : env) : Prop :=
  ∀ idx, (path_exists E idx = false ∧ ydl_download E idx = false)
         ∨ videos_insert E idx = None.

(** The ids of a list of descriptors, in order. *)
Definition video_ids (vs : list video) : list str :=
  omap (λ v : video, v !! "id") vs.

(** An account on which every download fails. *)
Definition env_offline (entries : list entry) : env :=
  mkEnv (lit "someone") (Some (Some entries)) true
        (λ _, false) (λ _, false) (λ _, Some (lit "yt1")) (λ _, Written).

(** ** Authentication (lines 40-62) *)

(** What the script reads of a credentials object. *)
Record credentials := mkCredentials {
  valid : bool;
  expired : bool;
  refresh_token : option str;
}.

(** What is at the path [TOKEN_FILE]: nothing, bytes that [pickle.load]
    rejects, or pickled credentials. *)
Inductive token_file :=
| NoToken
| BadToken
| Token (creds : credentials).

Inductive auth_error :=
| UnpicklingError
| RefreshError
| FlowError
| TokenWriteError.

(** The calls [get_youtube_service] makes, in order. *)
Inductive auth_event :=
| Refresh (creds : credentials)      (* line 52 *)
| RunFlow                            (* lines 54-56 *)
| DumpToken (creds : credentials).   (* lines 59-60 *)

(** The answers of the OAuth client and of the file system: the
    credentials after [creds.refresh], the credentials the browser flow
    returns ([None] when the call raises), and how the write of the
    token file ends. *)
Record auth_env := mkAuthEnv {
  refresh : credentials → option credentials;
  run_local_server : option credentials;
  pickle_dump : write_result;
}.

(** How the call ends (the credentials the service is built with, or
    the exception), the token file it leaves, the calls it made. *)
Record auth_run := mkAuthRun {
  service : auth_error + credentials;
  token_after : token_file;
  auth_calls : list auth_event;
}.

(** Lines 59-60, after the calls [evs]. *)
Definition save_token (A : auth_env) (c : credentials) (t : token_file)
    (evs : list auth_event) : auth_run :=
  match pickle_dump A with
  | Written => mkAuthRun (inr c) (Token c) (evs ++ [DumpToken c])
  | OpenFailed => mkAuthRun (inl TokenWriteError) t (evs ++ [DumpToken c])
  | WriteFailed =>
    mkAuthRun (inl TokenWriteError) BadToken (evs ++ [DumpToken c])
  end.

(** Lines 54-60. *)
Definition run_flow (A : auth_env) (t : token_file) : auth_run :=
  match run_local_server A with
  | None => mkAuthRun (inl FlowError) t [RunFlow]
  | Some c => save_token A c t [RunFlow]
  end.

(** [get_youtube_service()]; the client of line 62 is taken to be
    built. *)
Definition get_youtube_service (A : auth_env) (t : token_file) : auth_run :=
  match t with
  | BadToken => mkAuthRun (inl UnpicklingError) t []
  | NoToken => run_flow A t
  | Token c =>
    if valid c then mkAuthRun (inr c) t []
    else
      match expired c, refresh_token c with
      | true, Some (_ :: _) =>
        match refresh A c with
        | None => mkAuthRun (inl RefreshError) t [Refresh c]
        | Some c' => save_token A c' t [Refresh c]
        end
      | _, _ => run_flow A t
      end
  end.

(** ** The response of an upload (lines 167-174) *)

(** One answer of [request.next_chunk()]: a status (the percentage
    printed on line 171, when there is one) and a response, or an
    exception. *)
Inductive chunk :=
| Chunk (status : option nat) (response : option (gmap string (list N)))
| ChunkRaises.

Inductive upload_end :=
| Uploaded (id : str)
| UploadRaised
| NoAnswerYet.

(** The loop of lines 167-174 run on the answers the client gives, in
    order: the percentages printed and how it ends; [NoAnswerYet] when
    the answers run out before a response. *)
Fixpoint next_chunks (answers : list chunk) : list nat * upload_end :=
  match answers with
  | [] => ([], NoAnswerYet)
  | ChunkRaises :: _ => ([], UploadRaised)
  | Chunk status response :: rest =>
    let printed := match status with Some p => [p] | None => [] end in
    match response with
    | None => let '(ps, r) := next_chunks rest in (printed ++ ps, r)
    | Some resp =>
      match resp !! "id" with
      | Some i => (printed, Uploaded i)
      | None => (printed, UploadRaised)
      end
    end
  end.

(** The percentage of an answer that has a status and no response. *)
Definition progress_of (c : chunk) : option nat :=
  match c with
  | Chunk status None => status
  | _ => None
  end.

(** The answer carries no response and is no exception. *)
Definition in_progress (c : chunk) : Prop :=
  ∃ status, c = Chunk status None.


(** The last call made is a delay. *)
Definition ends_with_sleep (t : list event) : Prop :=
  ∃ k, last t = Some (Sleep k).

(** * Proofs *)

(** ** Enumerated videos *)

Lemma video_of_entry_id E e :
  video_of_entry E e !! "id" = Some (default (lit "unknown") (e !! "id")).
Proof. unfold video_of_entry. by simplify_map_eq. Qed.

Lemma video_of_entry_title E e :
  video_of_entry E e !! "title"
  = Some (default (lit "TikTok Video") (e !! "title")).
Proof. unfold video_of_entry. by simplify_map_eq. Qed.

Lemma video_of_entry_url E e :
  video_of_entry E e !! "url" = Some (entry_url E e).
Proof. unfold video_of_entry. by simplify_map_eq. Qed.

Lemma video_of_entry_description E e :
  video_of_entry E e !! "description" = None.
Proof. unfold video_of_entry. by simplify_map_eq. Qed.

Lemma video_of_entry_dom E e :
  dom (video_of_entry E e) = ({["id"; "title"; "url"]} : gset string).
Proof.
  unfold video_of_entry. rewrite !dom_insert_L, dom_singleton_L. set_solver.
Qed.

Lemma listed_video E v :
  v ∈ get_all_tiktok_videos E → ∃ e, v = video_of_entry E e.
Proof.
  unfold get_all_tiktok_videos.
  destruct (extract_info E) as [[entries|]|]; simpl.
  - rewrite elem_of_reverse, list_elem_of_fmap. intros (e & -> & _). eauto.
  - by intros ?%elem_of_nil.
  - by intros ?%elem_of_nil.
Qed.

(** ** The window *)

Lemma py_index_in_range {A} (l : list A) (i : Z) :
  (0 ≤ i < Z.of_nat (length l))%Z →
  ∃ x, l !! Z.to_nat i = Some x ∧ py_index l i = Some x.
Proof.
  intros [Hlo Hhi]. unfold py_index.
  destruct (Z.leb_spec 0 i) as [_|?]; [|lia].
  destruct (lookup_lt_is_Some_2 l (Z.to_nat i)) as [x Hx]; [lia|]. eauto.
Qed.

Lemma py_slice_from_in_range {A} (l : list A) (i : Z) :
  (0 ≤ i)%Z → py_slice_from l i = drop (Z.to_nat i) l.
Proof.
  intros Hlo. unfold py_slice_from. by destruct (Z.leb_spec 0 i); [|lia].
Qed.

Lemma py_index_elem_of {A} (l : list A) (i : Z) (x : A) :
  py_index l i = Some x → x ∈ l.
Proof.
  unfold py_index. repeat case_match; try done; apply list_elem_of_lookup_2.
Qed.

Lemma py_slice_from_subseteq {A} (l : list A) (i : Z) :
  py_slice_from l i ⊆ l.
Proof. unfold py_slice_from. case_match; apply subseteq_drop. Qed.

Lemma videos_to_process_listed ua all c vs :
  videos_to_process ua all c = inr vs → Forall (λ v, v ∈ all) vs.
Proof.
  unfold videos_to_process. destruct ua.
  - intros [= <-]. apply Forall_forall. intros v Hv.
    by apply (py_slice_from_subseteq all c).
  - destruct (py_index all c) as [v|] eqn:Hv; [|done].
    intros [= <-]. apply Forall_singleton. by eapply py_index_elem_of.
Qed.

(** ** The loop *)

(** An invariant of the body, on the videos of the window, is an
    invariant of the loop. *)
Lemma loop_preserves (I : state → Prop) (V : video → Prop) E ua ci n :
  (∀ idx v s, V v → I s → I (state_of (loop_body E ua ci n idx v s))) →
  ∀ vs idx s, Forall V vs → I s → I (state_of (loop E ua ci n idx vs s)).
Proof.
  intros Hbody vs. induction vs as [|v vs IH]; intros idx s HV HI; simpl; [done|].
  inversion_clear HV as [|? ? Hv Hvs].
  specialize (Hbody idx v s Hv HI).
  destruct (loop_body E ua ci n idx v s) as [s'|e s']; simpl in *; auto.
Qed.

Ltac body_cases :=
  unfold loop_body, save, save_uploaded_history, download_tiktok_video,
    upload_to_youtube in *;
  repeat case_match; simplify_eq/=.

(** A pass either touches nothing, or is the loop run on the window from
    the loaded record, followed by the summary. *)
Lemma main_cases E ua d :
  (calls (main E ua d) = [] ∧ disk_after (main E ua d) = d) ∨
  ∃ h vs, load_uploaded_history d = inr h ∧
    videos_to_process ua (get_all_tiktok_videos E) (initial_index h) = inr vs ∧
    let r := loop E ua (initial_index h) (length vs) 0 vs (initial_state d h) in
    calls (main E ua d) = trace (state_of r) ∧
    disk_after (main E ua d) = disk (state_of r).
Proof.
  unfold main.
  destruct (load_uploaded_history d) as [e|h] eqn:Hload; [by left|].
  destruct (get_all_tiktok_videos E) as [|v0 all] eqn:Hall; [by left|].
  case_bool_decide; [by left|].
  destruct (youtube_service E); [|by left]. simpl.
  destruct (videos_to_process ua (v0 :: all) (initial_index h)) as [e|vs] eqn:Hvs;
    [by left|].
  right. exists h, vs. repeat split; [done|..];
    by destruct (loop E ua (initial_index h) (length vs) 0 vs (initial_state d h)).
Qed.

(** ** The history file *)

(** C3, counterexample: on a file that exists and does not parse,
    [load_uploaded_history] raises the parse error instead of returning
    the zero-value record, and the pass dies with it. *)
Lemma load_malformed_raises :
  load_uploaded_history Malformed = inl JSONDecodeError ∧
  load_uploaded_history Malformed ≠ inr (mkHistory (Some 0%Z) (Some [])) ∧
  result (main (env_ok [entry_A]) false Malformed) = Raised JSONDecodeError.
Proof. repeat split; [discriminate]. Qed.

(** C3, amended: [load_uploaded_history] returns the zero-value record
    (cursor 0, no ids) when the file is absent and does not raise then;
    when the file exists it returns what is parsed, and on a file that
    does not parse it raises the parse error, which ends the pass before
    it lists, publishes or writes anything. *)
Theorem load_uploaded_history_cases (E : env) (upload_all : bool) (h : History) :
  load_uploaded_history Absent = inr (mkHistory (Some 0%Z) (Some [])) ∧
  load_uploaded_history (Stored h) = inr h ∧
  load_uploaded_history Malformed = inl JSONDecodeError ∧
  main E upload_all Malformed = mkRun (Raised JSONDecodeError) Malformed [].
Proof. done. Qed.

Lemma loop_body_same_but_keys E ua ci n idx v s1 s2 :
  same_but_keys s1 s2 →
  same_step (loop_body E ua ci n idx v s1) (loop_body E ua ci n idx v s2).
Proof.
  destruct s1 as [d1 t1 i1 b1 u1 ok1 ko1], s2 as [d2 t2 i2 b2 u2 ok2 ko2].
  intros (Ht & Hu & Hb & Hok & Hko); simpl in *; subst.
  unfold loop_body, save, save_uploaded_history, download_tiktok_video,
    upload_to_youtube, same_step, same_but_keys, history_of; simpl.
  destruct (v !! "title"); [|by auto].
  destruct (v !! "id") as [i|]; [|by auto].
  case_bool_decide as Hin; simpl.
  - destruct Hb as [->| ->]; [|by apply elem_of_nil in Hin].
    destruct (json_dump E idx); simpl; auto 10.
  - destruct (path_exists E idx), (v !! "url"), (ydl_download E idx),
      (videos_insert E idx); simpl; auto 10.
    all: destruct (json_dump E idx); simpl; auto 10.
    all: destruct ua; simpl; try case_bool_decide; simpl; auto 10.
Qed.

Lemma loop_same_but_keys E ua ci n vs :
  ∀ idx s1 s2, same_but_keys s1 s2 →
  same_step (loop E ua ci n idx vs s1) (loop E ua ci n idx vs s2).
Proof.
  induction vs as [|v vs IH]; intros idx s1 s2 Hs; simpl; [done|].
  pose proof (loop_body_same_but_keys E ua ci n idx v s1 s2 Hs) as Hb.
  destruct (loop_body E ua ci n idx v s1), (loop_body E ua ci n idx v s2);
    simpl in Hb; try done. by apply IH.
Qed.

(** C9: a history file that parses but lacks the cursor key or the ids
    key is loaded without an error; the pass starts with 0 for the
    missing cursor and with the empty list for the missing ids, and makes
    the calls it would make had the file held these values. *)
Theorem missing_keys_default (E : env) (upload_all : bool) (h : History) :
  load_uploaded_history (Stored h) = inr h ∧
  (h_current_index h = None → initial_index h = 0%Z) ∧
  (h_uploaded_ids h = None →
     uploaded_ids (initial_state (Stored h) h) = []) ∧
  calls (main E upload_all (Stored h))
  = calls (main E upload_all
             (Stored (mkHistory (Some (default 0%Z (h_current_index h)))
                                (Some (default [] (h_uploaded_ids h)))))).
Proof.
  split; [done|]. split; [by unfold initial_index; intros ->|].
  split; [by unfold initial_state; simpl; intros ->|].
  unfold main; simpl. unfold initial_index; simpl.
  destruct (get_all_tiktok_videos E) as [|v0 all]; [done|].
  case_bool_decide; [done|]. destruct (youtube_service E); [|done]. simpl.
  destruct (videos_to_process _ _ _) as [e|vs]; [done|].
  match goal with
  | |- calls (match ?a with _ => _ end) = calls (match ?b with _ => _ end) =>
    assert (same_step a b) as Hsim;
      [|destruct a, b; simpl in *; try done; [apply Hsim|apply Hsim]]
  end.
  apply loop_same_but_keys. unfold same_but_keys, initial_state; simpl.
  repeat split; [|done..].
  destruct (h_uploaded_ids h); simpl; auto.
Qed.

(** A file with neither key, one video listed, single mode: the video at
    index 0 is published and the record written has both keys. *)
Lemma missing_keys_default_witness :
  initial_index (mkHistory None None) = 0%Z ∧
  uploaded_ids (initial_state (Stored (mkHistory None None))
                              (mkHistory None None)) = [] ∧
  disk_after (main (env_ok [entry_A]) false (Stored (mkHistory None None)))
  = Stored (mkHistory (Some 1%Z) (Some [lit "A"])).
Proof.
  destruct (missing_keys_default (env_ok [entry_A]) false (mkHistory None None))
    as (_ & Hc & Hi & _).
  split; [by apply Hc|]. split; [by apply Hi|]. by vm_compute.
Defined.

(** ** What is published *)

Lemma limit_title_long (t : str) :
  100 < length t →
  limit_title t = take 97 t ++ lit "..." ∧ length (limit_title t) = 100.
Proof.
  intros Hlen. unfold limit_title. rewrite decide_True by done.
  split; [done|]. rewrite length_app, length_take.
  change (length (lit "...")) with 3. lia.
Qed.

Lemma limit_title_short (t : str) :
  length t ≤ 100 → limit_title t = t.
Proof. intros Hlen. unfold limit_title. rewrite decide_False; [done|lia]. Qed.

(** C8: the title sent with an upload is the title given to
    [upload_to_youtube] cut by line 144: a title longer than 100
    characters becomes its first 97 characters followed by three dots,
    100 characters in all; a title of at most 100 characters is sent as
    it is. *)
Theorem title_limited (E : env) (idx : nat) (video_file t d : str) :
  title (body_snippet (upload_to_youtube E idx video_file t d).1)
  = limit_title t ∧
  (100 < length t →
     limit_title t = take 97 t ++ lit "..." ∧ length (limit_title t) = 100) ∧
  (length t ≤ 100 → limit_title t = t).
Proof.
  split; [done|]. split; [apply limit_title_long|apply limit_title_short].
Qed.

(** A title of 120 characters is sent as 100, one of 5 unchanged. *)
Lemma title_limited_witness :
  length (limit_title (replicate 120 65%N)) = 100 ∧
  limit_title (replicate 120 65%N) = replicate 97 65%N ++ lit "..." ∧
  limit_title (lit "short") = lit "short".
Proof.
  destruct (title_limited (env_ok []) 0 [] (replicate 120 65%N) [])
    as (_ & Hlong & _).
  destruct (title_limited (env_ok []) 0 [] (lit "short") [])
    as (_ & _ & Hshort).
  destruct Hlong as [Heq Hlen]; [vm_compute; lia|].
  split; [exact Hlen|]. split; [exact Heq|]. apply Hshort. vm_compute; lia.
Defined.

Lemma loop_body_published_as E V ua ci n idx v s :
  V v → Forall (published_as E V) (trace s) →
  Forall (published_as E V) (trace (state_of (loop_body E ua ci n idx v s))).
Proof.
  intros Hv Hs. body_cases; rewrite ?Forall_app, ?Forall_singleton; simpl;
    repeat split; eauto.
Qed.

(** Every upload of a pass is the upload of a listed video, with the
    request built from its title and its description. *)
Lemma main_published_as E ua d :
  Forall (published_as E (λ v, v ∈ get_all_tiktok_videos E))
         (calls (main E ua d)).
Proof.
  destruct (main_cases E ua d) as [[-> _]|(h & vs & _ & Hvs & -> & _)];
    [by constructor|].
  apply loop_preserves with (V := λ v, v ∈ get_all_tiktok_videos E).
  - intros. by apply loop_body_published_as.
  - by eapply videos_to_process_listed.
  - by constructor.
Qed.

(** C10: a listed video has the three keys id, title and url and no
    description, so the description sent with every upload of a pass is
    the fallback text followed by the promotional suffix. *)
Theorem fallback_description (E : env) (upload_all : bool) (d : file)
    (v : video) (f : str) (b : body) :
  Publish v f b ∈ calls (main E upload_all d) →
  v ∈ get_all_tiktok_videos E ∧
  dom v = ({["id"; "title"; "url"]} : gset string) ∧
  v !! "description" = None ∧
  description (body_snippet b)
  = lit "Check out my other content!" ++ promo_suffix.
Proof.
  intros Hin.
  pose proof (main_published_as E upload_all d) as Hall.
  rewrite Forall_forall in Hall. specialize (Hall _ Hin).
  destruct Hall as (Hv & t & _ & ->).
  destruct (listed_video E v Hv) as [e ->].
  rewrite video_of_entry_description, video_of_entry_dom. done.
Qed.

(** One listed video, every collaborator answering: it is published with
    the fallback description. *)
Lemma fallback_description_witness :
  ∃ f b, Publish video_A f b ∈ calls (main (env_ok [entry_A]) false Absent) ∧
         description (body_snippet b)
         = lit "Check out my other content!" ++ promo_suffix.
Proof.
  exists (output_file (lit "A")),
    (request_body (env_ok [entry_A]) (lit "first") FALLBACK_DESCRIPTION).
  assert (Publish video_A (output_file (lit "A"))
            (request_body (env_ok [entry_A]) (lit "first") FALLBACK_DESCRIPTION)
          ∈ calls (main (env_ok [entry_A]) false Absent)) as Hin.
  { vm_compute. apply list_elem_of_further, list_elem_of_here. }
  split; [exact Hin|].
  exact (proj2 (proj2 (proj2
    (fallback_description (env_ok [entry_A]) false Absent _ _ _ Hin)))).
Defined.

(** ** One iteration *)

Lemma output_file_nonempty (i : str) : output_file i ≠ [].
Proof. done. Qed.

Lemma download_tiktok_video_path E idx v f :
  download_tiktok_video E idx v = inr (Some f) → f ≠ [].
Proof.
  unfold download_tiktok_video. repeat case_match; intros; by simplify_eq.
Qed.

(** C4: when the upload of a video of the window raises, the iteration
    leaves the history file, the dict and the id list as they were (no
    cursor advance, no id added), counts one failure and goes on with the
    next video of the window. *)
Theorem publish_failure_keeps_record (E : env) (upload_all : bool)
    (current_index : Z) (n idx : nat) (v : video) (rest : list video)
    (s : state) (t i f : str) :
  v !! "title" = Some t → v !! "id" = Some i → i ∉ uploaded_ids s →
  download_tiktok_video E idx v = inr (Some f) →
  videos_insert E idx = None →
  ∃ s', loop_body E upload_all current_index n idx v s = Next s' ∧
    disk s' = disk s ∧ history_of s' = history_of s ∧
    uploaded_ids s' = uploaded_ids s ∧
    successful_uploads s' = successful_uploads s ∧
    failed_uploads s' = S (failed_uploads s) ∧
    trace s' = trace s ++
      [Materialize v;
       Publish v f (request_body E t
                      (default FALLBACK_DESCRIPTION (v !! "description")));
       Print ErrorUploading] ∧
    loop E upload_all current_index n idx (v :: rest) s
    = loop E upload_all current_index n (S idx) rest s'.
Proof.
  intros Ht Hi Hin Hdl Hup.
  pose proof (download_tiktok_video_path _ _ _ _ Hdl) as Hf.
  assert (∃ s', loop_body E upload_all current_index n idx v s = Next s' ∧
    disk s' = disk s ∧ history_of s' = history_of s ∧
    uploaded_ids s' = uploaded_ids s ∧
    successful_uploads s' = successful_uploads s ∧
    failed_uploads s' = S (failed_uploads s) ∧
    trace s' = trace s ++
      [Materialize v;
       Publish v f (request_body E t
                      (default FALLBACK_DESCRIPTION (v !! "description")));
       Print ErrorUploading]) as (s' & Hs' & Hrest).
  { unfold loop_body. rewrite Ht, Hi, bool_decide_eq_false_2, Hdl by done.
    destruct f as [|c f]; [done|].
    unfold upload_to_youtube. rewrite Hup. eexists. split; [done|].
    simpl. by rewrite <- !app_assoc. }
  exists s'. simpl. rewrite Hs'.
  destruct Hrest as (? & ? & ? & ? & ? & ?). by repeat split.
Qed.

(** The scenario A, B, C with the record (1, {A}): the upload of B
    fails, and the file still holds (1, {A}). *)
Lemma publish_failure_keeps_record_witness :
  ∃ s', loop_body (env_upload_fails [entry_C; entry_B; entry_A] 0) false 1 1 0
          video_B
          (initial_state (Stored (mkHistory (Some 1%Z) (Some [lit "A"])))
                         (mkHistory (Some 1%Z) (Some [lit "A"]))) = Next s' ∧
        disk s' = Stored (mkHistory (Some 1%Z) (Some [lit "A"])) ∧
        history_of s' = mkHistory (Some 1%Z) (Some [lit "A"]).
Proof.
  destruct (publish_failure_keeps_record
              (env_upload_fails [entry_C; entry_B; entry_A] 0) false 1 1 0
              video_B []
              (initial_state (Stored (mkHistory (Some 1%Z) (Some [lit "A"])))
                             (mkHistory (Some 1%Z) (Some [lit "A"])))
              (lit "second") (lit "B") (output_file (lit "B")))
    as (s' & Hs' & Hd & Hh & _).
  - by vm_compute.
  - by vm_compute.
  - simpl. rewrite list_elem_of_singleton. by vm_compute.
  - by vm_compute.
  - by vm_compute.
  - exists s'. by rewrite Hs', Hd, Hh.
Defined.

(** The same scenario as a pass: nothing is written, and the next pass
    starts on B again. *)
Example publish_failure_scenario :
  let d := Stored (mkHistory (Some 1%Z) (Some [lit "A"])) in
  let r := main (env_upload_fails [entry_C; entry_B; entry_A] 0) false d in
  disk_after r = d ∧
  result r = Returned (UploadSummary 0 1 1 3 (Remaining 2 true)) ∧
  videos_to_process false
    (get_all_tiktok_videos (env_ok [entry_C; entry_B; entry_A]))
    (initial_index (mkHistory (Some 1%Z) (Some [lit "A"]))) = inr [video_B].
Proof. by vm_compute. Qed.

Lemma loop_body_completed_in E ua ci n idx v s x t0 :
  completed_in x t0 s →
  completed_in x t0 (state_of (loop_body E ua ci n idx v s)).
Proof.
  intros (Hx & evs & Ht & Hevs). unfold completed_in.
  body_cases; rewrite ?Ht, <- ?app_assoc.
  all: split; [rewrite ?elem_of_app; by auto|].
  all: eexists; split; [done|].
  all: rewrite ?Forall_app, ?Forall_singleton; simpl; repeat split; try done.
  all: match goal with H : _ !! "id" = Some _ |- _ => rewrite H end.
  all: intros [= ->].
  all: match goal with
       | H : bool_decide _ = false |- _ => by apply bool_decide_eq_false in H
       end.
Qed.

Lemma loop_body_recorded_in E ua ci n idx v s x :
  recorded_in x s → recorded_in x (state_of (loop_body E ua ci n idx v s)).
Proof.
  intros (Hx & Hb & Hd). unfold recorded_in.
  body_cases; repeat split; try done; rewrite ?elem_of_app; auto.
  all: right; unfold persisted_ids, history_of; simpl; rewrite ?Hb; simpl.
  all: rewrite ?elem_of_app; auto.
Qed.

(** A pass started on a file that holds [x], or that does not parse,
    does not upload [x] and leaves such a file. *)
Lemma main_no_republish E ua d x :
  d = Malformed ∨ x ∈ persisted_ids d →
  Forall (not_publish_of x) (calls (main E ua d)) ∧
  (disk_after (main E ua d) = Malformed
   ∨ x ∈ persisted_ids (disk_after (main E ua d))).
Proof.
  intros Hd.
  destruct (main_cases E ua d) as [[-> ->]|(h & vs & Hload & _ & -> & ->)];
    [by split|].
  destruct Hd as [->|Hx]; [done|].
  unfold persisted_ids in Hx. rewrite Hload in Hx.
  assert (recorded_in x (initial_state d h)) as Hrec.
  { unfold recorded_in, initial_state, persisted_ids; simpl.
    rewrite Hload. destruct (h_uploaded_ids h); simpl in *; [by auto|].
    by apply elem_of_nil in Hx. }
  assert (completed_in x [] (initial_state d h)) as Hcom.
  { split; [apply Hrec|]. by exists []. }
  split.
  - eapply (loop_preserves (completed_in x []) (λ _, True)) in Hcom
      as (_ & evs & -> & Hevs); [done|..].
    + intros. by apply loop_body_completed_in.
    + by apply Forall_true.
  - eapply (loop_preserves (recorded_in x) (λ _, True)) in Hrec
      as (_ & _ & Hdisk); [done|..].
    + intros. by apply loop_body_recorded_in.
    + by apply Forall_true.
Qed.

Lemma passes_no_republish x runs :
  ∀ d, d = Malformed ∨ x ∈ persisted_ids d →
       Forall (not_publish_of x) (passes runs d).2.
Proof.
  induction runs as [|[E ua] runs IH]; intros d Hd; simpl; [by constructor|].
  destruct (main_no_republish E ua d x Hd) as [Hcalls Hafter].
  specialize (IH _ Hafter).
  destruct (passes runs (disk_after (main E ua d))) as [d' t]; simpl in *.
  by apply Forall_app.
Qed.

(** C5: a video whose id is already in the id list when the loop reaches
    it is neither downloaded nor uploaded: the iteration prints the skip
    message, sets the cursor to its index plus one and saves the record,
    then goes on with the next video.  Once an id is in the list, the
    rest of the pass does not upload it, and once it is in the file, no
    later pass does. *)
Theorem already_uploaded_skipped (E : env) (upload_all : bool)
    (current_index : Z) (n idx : nat) (v : video) (rest : list video)
    (s : state) (x : str) :
  (∀ t, v !! "title" = Some t → v !! "id" = Some x → x ∈ uploaded_ids s →
     let h' := mkHistory (Some (current_index + Z.of_nat idx + 1)%Z)
                         (h_uploaded_ids (history_of s)) in
     trace (state_of (loop_body E upload_all current_index n idx v s))
     = trace s ++ [Print AlreadyUploaded; Save h'] ∧
     (json_dump E idx = Written →
      ∃ s', loop_body E upload_all current_index n idx v s = Next s' ∧
        disk s' = Stored h' ∧ history_of s' = h' ∧
        uploaded_ids s' = uploaded_ids s ∧
        successful_uploads s' = successful_uploads s ∧
        failed_uploads s' = failed_uploads s ∧
        loop E upload_all current_index n idx (v :: rest) s
        = loop E upload_all current_index n (S idx) rest s')) ∧
  (x ∈ uploaded_ids s →
     ∃ evs, trace (state_of (loop E upload_all current_index n idx rest s))
            = trace s ++ evs ∧ Forall (not_publish_of x) evs) ∧
  (∀ runs d, x ∈ persisted_ids d →
     Forall (not_publish_of x) (passes runs d).2).
Proof.
  split; [|split].
  - intros t Ht Hi Hx h'. split.
    { unfold loop_body. rewrite Ht, Hi, bool_decide_eq_true_2 by done.
      unfold save, save_uploaded_history; simpl.
      destruct (json_dump E idx); simpl; by rewrite <- app_assoc. }
    intros Hw.
    assert (∃ s', loop_body E upload_all current_index n idx v s = Next s' ∧
        disk s' = Stored h' ∧ history_of s' = h' ∧
        uploaded_ids s' = uploaded_ids s ∧
        successful_uploads s' = successful_uploads s ∧
        failed_uploads s' = failed_uploads s) as (s' & Hs' & Hrest).
    { unfold loop_body. rewrite Ht, Hi, bool_decide_eq_true_2 by done.
      unfold save, save_uploaded_history. rewrite Hw.
      eexists. split; [reflexivity|]. by repeat split. }
    exists s'. simpl. rewrite Hs'.
    destruct Hrest as (? & ? & ? & ? & ?). by repeat split.
  - intros Hx.
    assert (completed_in x (trace s) s) as Hcom.
    { split; [done|]. exists []. by rewrite app_nil_r. }
    eapply (loop_preserves (completed_in x (trace s)) (λ _, True)) in Hcom
      as (_ & Hevs); [exact Hevs|..].
    + intros. by apply loop_body_completed_in.
    + by apply Forall_true.
  - intros runs d Hx. apply passes_no_republish. by right.
Qed.

(** The record (0, {A}) with A and B listed, bulk mode: A is skipped and
    the cursor saved as 1; however many passes follow, A is not
    uploaded. *)
Lemma already_uploaded_skipped_witness :
  let d := Stored (mkHistory (Some 0%Z) (Some [lit "A"])) in
  let E := env_ok [entry_B; entry_A] in
  trace (state_of (loop_body E true 0 2 0 video_A
                             (initial_state d (mkHistory (Some 0%Z) (Some [lit "A"])))))
  = [Print AlreadyUploaded; Save (mkHistory (Some 1%Z) (Some [lit "A"]))] ∧
  Forall (not_publish_of (lit "A")) (passes [(E, true); (E, false)] d).2.
Proof.
  intros d E.
  destruct (already_uploaded_skipped E true 0 2 0 video_A []
              (initial_state d (mkHistory (Some 0%Z) (Some [lit "A"])))
              (lit "A")) as (Hskip & _ & Hpasses).
  split.
  - apply (Hskip (lit "first")); [by vm_compute..|].
    simpl. apply list_elem_of_here.
  - apply Hpasses. simpl. apply list_elem_of_here.
Defined.

(** ** The cursor *)

(** What one iteration can leave in the file: what was there, bytes that
    do not parse, or a record whose cursor is the index of the iteration
    plus one. *)
Lemma loop_body_disk E ua ci n idx v s :
  let d' := disk (state_of (loop_body E ua ci n idx v s)) in
  d' = disk s ∨ d' = Malformed ∨
  ∃ h, d' = Stored h ∧ h_current_index h = Some (ci + Z.of_nat idx + 1)%Z.
Proof. simpl. body_cases; eauto. Qed.

Lemma loop_disk E ua ci n vs :
  ∀ idx s,
  let d' := disk (state_of (loop E ua ci n idx vs s)) in
  d' = disk s ∨ d' = Malformed ∨
  ∃ h k, d' = Stored h ∧ h_current_index h = Some (ci + Z.of_nat k + 1)%Z ∧
         idx ≤ k < idx + length vs.
Proof.
  induction vs as [|v vs IH]; intros idx s; simpl; [by left|].
  pose proof (loop_body_disk E ua ci n idx v s) as Hb. simpl in Hb.
  destruct (loop_body E ua ci n idx v s) as [s1|e s1]; simpl in *.
  - destruct (IH (S idx) s1) as [->|[->|(h & k & -> & Hk & ?)]].
    + destruct Hb as [->|[->|(h & -> & Hh)]]; [by left|by auto|].
      right; right. exists h, idx. repeat split; [done|lia..].
    + by auto.
    + right; right. exists h, k. repeat split; [done|lia..].
  - destruct Hb as [->|[->|(h & -> & Hh)]]; [by left|by auto|].
    right; right. exists h, idx. repeat split; [done|lia..].
Qed.

(** The cursor in the file does not go down in a pass, and moves by at
    most the length of the window. *)
Lemma persisted_index_monotone E ua d c c' :
  persisted_index d = Some c →
  persisted_index (disk_after (main E ua d)) = Some c' →
  (c ≤ c')%Z.
Proof.
  intros Hc Hc'.
  destruct (main_cases E ua d) as [[_ Hd]|(h & vs & Hload & _ & _ & Hd)];
    rewrite Hd in Hc'; [by simplify_eq|].
  assert (c = initial_index h) as ->.
  { unfold persisted_index in Hc. rewrite Hload in Hc. by simplify_eq. }
  destruct (loop_disk E ua (initial_index h) (length vs) vs 0
              (initial_state d h)) as [Heq|[Heq|(h' & k & Heq & Hk & _)]];
    rewrite Heq in Hc'; simpl in Hc'.
  - unfold persisted_index in Hc'. rewrite Hload in Hc'. by simplify_eq.
  - done.
  - unfold persisted_index, initial_index in Hc'. simpl in Hc'.
    rewrite Hk in Hc'. simpl in Hc'. simplify_eq. lia.
Qed.

(** The dict has the ids key, or the list is still empty (the key is
    bound as soon as an id is appended). *)
Lemma loop_body_ids_bound E ua ci n idx v s :
  history_ids s = true ∨ uploaded_ids s = [] →
  history_ids (state_of (loop_body E ua ci n idx v s)) = true
  ∨ uploaded_ids (state_of (loop_body E ua ci n idx v s)) = [].
Proof. intros Hs. body_cases; auto. Qed.

(** A record is written with the cursor at an index plus one only with
    the id of the video at that index in its id list: the cursor is
    written in the skip branch and after a successful upload, nowhere
    else. *)
Lemma saved_cursor_has_id E ua ci n idx v s h :
  history_ids s = true ∨ uploaded_ids s = [] →
  disk (state_of (loop_body E ua ci n idx v s)) = Stored h →
  disk s ≠ Stored h →
  h_current_index h = Some (ci + Z.of_nat idx + 1)%Z ∧
  ∃ i, v !! "id" = Some i ∧ i ∈ default [] (h_uploaded_ids h).
Proof.
  intros Hs Hd Hne. body_cases; try done.
  all: unfold history_of; simpl; split; [done|].
  all: eexists; split; [done|].
  - match goal with
    | H : bool_decide _ = true |- _ =>
      apply bool_decide_eq_true in H; rename H into H1
    end.
    destruct Hs as [Hb|Hb]; rewrite Hb in *; simpl; [done|].
    by apply elem_of_nil in H1.
  - rewrite elem_of_app, list_elem_of_singleton. by right.
  - rewrite elem_of_app, list_elem_of_singleton. by right.
  - rewrite elem_of_app, list_elem_of_singleton. by right.
  - rewrite elem_of_app, list_elem_of_singleton. by right.
Qed.

Lemma loop_body_no_failures E ua ci n idx e s :
  no_failures E →
  ∃ s', loop_body E ua ci n idx (video_of_entry E e) s = Next s' ∧
    disk s' = Stored (history_of s') ∧
    history_index s' = Some (ci + Z.of_nat idx + 1)%Z ∧
    failed_uploads s' = failed_uploads s.
Proof.
  intros [_ Hok]. destruct (Hok idx) as (Hdl & [y Hy] & Hw).
  unfold loop_body, save, save_uploaded_history, download_tiktok_video,
    upload_to_youtube.
  rewrite video_of_entry_title, video_of_entry_id, video_of_entry_url, Hw, Hy.
  case_bool_decide; [by eexists|].
  destruct (path_exists E idx); simpl in *; [|rewrite Hdl]; simpl.
  all: destruct (ua && _); by eexists.
Qed.

Lemma loop_no_failures E ua ci n vs :
  no_failures E → Forall (λ v, ∃ e, v = video_of_entry E e) vs →
  ∀ idx s,
  ∃ s', loop E ua ci n idx vs s = Next s' ∧
    failed_uploads s' = failed_uploads s ∧
    (vs ≠ [] → disk s' = Stored (history_of s') ∧
       history_index s' = Some (ci + Z.of_nat idx + Z.of_nat (length vs))%Z).
Proof.
  intros HE Hvs. induction Hvs as [|v vs [e ->] _ IH]; intros idx s; simpl.
  { by exists s. }
  destruct (loop_body_no_failures E ua ci n idx e s HE)
    as (s1 & -> & Hd1 & Hi1 & Hf1).
  destruct (IH (S idx) s1) as (s' & Hs' & Hf' & Hlast).
  exists s'. split; [done|]. split; [congruence|]. intros _.
  destruct vs as [|v' vs'].
  - simpl in Hs'. simplify_eq. split; [done|]. rewrite Hi1. f_equal; lia.
  - destruct Hlast as [Hd' Hi']; [|split]; [done..|].
    rewrite Hi'. f_equal; simpl length; lia.
Qed.

(** A pass whose cursor is inside the listing is the loop on the window
    followed by the summary. *)
Lemma main_window E ua d h vs :
  load_uploaded_history d = inr h →
  (0 ≤ initial_index h < Z.of_nat (length (get_all_tiktok_videos E)))%Z →
  youtube_service E = true →
  videos_to_process ua (get_all_tiktok_videos E) (initial_index h) = inr vs →
  main E ua d
  = match loop E ua (initial_index h) (length vs) 0 vs (initial_state d h) with
    | Next s' =>
      mkRun (summary ua (get_all_tiktok_videos E) s') (disk s') (trace s')
    | Abort e s' => mkRun (Raised e) (disk s') (trace s')
    end.
Proof.
  intros Hload Hc Hyt Hvs. unfold main. rewrite Hload.
  destruct (get_all_tiktok_videos E) as [|v0 all]; [simpl in Hc; lia|].
  rewrite bool_decide_eq_false_2 by lia. by rewrite Hyt, Hvs.
Qed.

(** C7: with the cursor inside the listing, single mode takes exactly
    the video at the cursor and leaves the cursor in the file where it
    was or one further; bulk mode takes all videos from the cursor on
    and, when no collaborator fails, leaves the cursor at the length of
    the listing. *)
Theorem window_by_mode (E : env) (d : file) (h : History) :
  load_uploaded_history d = inr h →
  (0 ≤ initial_index h < Z.of_nat (length (get_all_tiktok_videos E)))%Z →
  (∃ v, get_all_tiktok_videos E !! Z.to_nat (initial_index h) = Some v ∧
        videos_to_process false (get_all_tiktok_videos E) (initial_index h)
        = inr [v]) ∧
  (∀ c', persisted_index (disk_after (main E false d)) = Some c' →
         (initial_index h ≤ c' ≤ initial_index h + 1)%Z) ∧
  videos_to_process true (get_all_tiktok_videos E) (initial_index h)
  = inr (drop (Z.to_nat (initial_index h)) (get_all_tiktok_videos E)) ∧
  (no_failures E →
     persisted_index (disk_after (main E true d))
     = Some (Z.of_nat (length (get_all_tiktok_videos E))) ∧
     ∃ ok, result (main E true d)
           = Returned (UploadSummary ok 0
                         (Z.of_nat (length (get_all_tiktok_videos E)))
                         (length (get_all_tiktok_videos E))
                         (AllVideosUploaded
                            (length (get_all_tiktok_videos E))))).
Proof.
  intros Hload Hc.
  destruct (py_index_in_range (get_all_tiktok_videos E) (initial_index h) Hc)
    as (v & Hv & Hpy).
  assert (videos_to_process false (get_all_tiktok_videos E) (initial_index h)
          = inr [v]) as Hsingle.
  { unfold videos_to_process. by rewrite Hpy. }
  assert (videos_to_process true (get_all_tiktok_videos E) (initial_index h)
          = inr (drop (Z.to_nat (initial_index h)) (get_all_tiktok_videos E)))
    as Hbulk.
  { unfold videos_to_process. rewrite py_slice_from_in_range; [done|lia]. }
  split; [by exists v|]. split; [|split; [done|]].
  - intros c' Hc'.
    destruct (main_cases E false d)
      as [[_ Hd]|(h0 & vs & Hload0 & Hvs & _ & Hd)]; rewrite Hd in Hc'.
    { unfold persisted_index in Hc'. rewrite Hload in Hc'. simplify_eq. lia. }
    rewrite Hload in Hload0. injection Hload0 as <-.
    rewrite Hsingle in Hvs. injection Hvs as <-.
    destruct (loop_disk E false (initial_index h) 1 [v] 0 (initial_state d h))
      as [Heq|[Heq|(h' & k & Heq & Hk & Hrange)]];
      simpl length in *; rewrite Heq in Hc'; simpl in Hc'.
    + unfold persisted_index in Hc'. rewrite Hload in Hc'. simplify_eq. lia.
    + done.
    + unfold persisted_index, initial_index in Hc'. simpl in Hc'.
      rewrite Hk in Hc'. simpl in Hc'. simplify_eq. lia.
  - intros HE. destruct HE as [Hyt Hok].
    rewrite (main_window E true d h _ Hload Hc Hyt Hbulk).
    set (all := get_all_tiktok_videos E) in *.
    set (vs := drop (Z.to_nat (initial_index h)) all).
    assert (length vs = length all - Z.to_nat (initial_index h))
      as Hlen by apply length_drop.
    destruct (loop_no_failures E true (initial_index h) (length vs) vs
                (conj Hyt Hok)) with (idx := 0) (s := initial_state d h)
      as (s' & -> & Hf & Hlast).
    { apply Forall_forall. intros w Hw. apply (listed_video E).
      by apply (subseteq_drop (Z.to_nat (initial_index h))). }
    assert (vs ≠ []) as Hne.
    { intros Hnil. rewrite Hnil in Hlen. simpl in *. lia. }
    destruct (Hlast Hne) as [Hd' Hi'].
    assert (history_index s' = Some (Z.of_nat (length all))) as Hidx.
    { rewrite Hi'. f_equal; lia. }
    simpl. split.
    + rewrite Hd'. unfold persisted_index, initial_index, history_of. simpl.
      by rewrite Hidx.
    + unfold summary. rewrite Hidx, Hf.
      rewrite bool_decide_eq_true_2 by lia. by eexists.
Qed.

(** Three videos listed and nothing done yet: single mode takes the
    oldest one and leaves the cursor at 1, bulk mode takes the three and
    leaves it at 3. *)
Lemma window_by_mode_witness :
  let E := env_ok [entry_C; entry_B; entry_A] in
  videos_to_process false (get_all_tiktok_videos E) 0 = inr [video_A] ∧
  persisted_index (disk_after (main E false Absent)) = Some 1%Z ∧
  (0 ≤ 1 ≤ 0 + 1)%Z ∧
  persisted_index (disk_after (main E true Absent)) = Some 3%Z.
Proof.
  intros E.
  destruct (window_by_mode E Absent (mkHistory (Some 0%Z) (Some [])))
    as ((v & Hv & Hsingle) & Hstep & _ & Hbulk).
  - reflexivity.
  - split; by vm_compute.
  - assert (persisted_index (disk_after (main E false Absent)) = Some 1%Z)
      as Hone by (by vm_compute).
    split; [|split; [exact Hone|split; [exact (Hstep _ Hone)|]]].
    + by vm_compute.
    + apply Hbulk. split; [done|]. intros idx. repeat split; eauto.
Defined.

(** C1, the code at the failing input: A and B are listed, nothing is
    done yet, bulk mode.  The download of A fails and B is published: the
    cursor written is 2, past index 0 whose video was neither skipped nor
    published; the summary announces that all videos are uploaded and
    the next pass has nothing to do.  The same happens when it is the
    upload of A that fails. *)
Theorem cursor_passes_failed_item :
  let E := env_download_fails [entry_B; entry_A] 0 in
  let r := main E true Absent in
  get_all_tiktok_videos E = [video_A; video_B] ∧
  calls r = [Materialize video_A; Print FailedToDownload;
             Materialize video_B;
             Publish video_B (output_file (lit "B"))
               (request_body E (lit "second") FALLBACK_DESCRIPTION);
             Save (mkHistory (Some 2%Z) (Some [lit "B"]));
             Print (SuccessfullyUploaded 1)] ∧
  disk_after r = Stored (mkHistory (Some 2%Z) (Some [lit "B"])) ∧
  result r = Returned (UploadSummary 1 1 2 2 (AllVideosUploaded 2)) ∧
  main (env_ok [entry_B; entry_A]) true (disk_after r)
  = mkRun (Returned (AllHaveBeenUploaded 2)) (disk_after r) [] ∧
  disk_after (main (env_upload_fails [entry_B; entry_A] 0) true Absent)
  = Stored (mkHistory (Some 2%Z) (Some [lit "B"])).
Proof. by vm_compute. Qed.

(** In single mode the same failure leaves the cursor on the video, and
    the next pass takes it again. *)
Example single_mode_retries_failed_item :
  let E := env_download_fails [entry_B; entry_A] 0 in
  disk_after (main E false Absent) = Absent ∧
  videos_to_process false (get_all_tiktok_videos E)
    (initial_index (mkHistory (Some 0%Z) (Some []))) = inr [video_A].
Proof. by vm_compute. Qed.

(** ** Failure of the save *)

(** In the skip branch the save is outside any [try]: its failure leaves
    [main]. *)
Lemma skip_save_failure_propagates E ua ci n idx v s t i :
  v !! "title" = Some t → v !! "id" = Some i → i ∈ uploaded_ids s →
  json_dump E idx ≠ Written →
  ∃ s', loop_body E ua ci n idx v s = Abort OSError s'.
Proof.
  intros Ht Hi Hin Hw. unfold loop_body, save, save_uploaded_history.
  rewrite Ht, Hi, bool_decide_eq_true_2 by done.
  destruct (json_dump E idx); [done|by eexists..].
Qed.

(** After an upload the save is inside the [try] of line 246: its
    failure is caught on line 271, counted as a failed upload, and the
    loop goes on, the dict and the id list already changed. *)
Lemma publish_save_failure_caught E ua ci n idx v s t i f y :
  v !! "title" = Some t → v !! "id" = Some i → i ∉ uploaded_ids s →
  download_tiktok_video E idx v = inr (Some f) →
  videos_insert E idx = Some y →
  json_dump E idx ≠ Written →
  ∃ s', loop_body E ua ci n idx v s = Next s' ∧
    failed_uploads s' = S (failed_uploads s) ∧
    uploaded_ids s' = uploaded_ids s ++ [i] ∧
    history_index s' = Some (ci + Z.of_nat idx + 1)%Z ∧
    (disk s' = disk s ∨ disk s' = Malformed).
Proof.
  intros Ht Hi Hin Hdl Hup Hw.
  pose proof (download_tiktok_video_path _ _ _ _ Hdl) as Hf.
  unfold loop_body. rewrite Ht, Hi, bool_decide_eq_false_2, Hdl by done.
  destruct f as [|c f]; [done|].
  unfold upload_to_youtube, save, save_uploaded_history. rewrite Hup.
  destruct (json_dump E idx); [done|eexists; split; [done|]; simpl; auto..].
Qed.

(** C2, the code at the failing input: one video listed, nothing done
    yet, single mode, and the history file cannot be written.  The video
    is uploaded, the save raises, and the pass does not stop with that
    error: it counts one failed upload and returns its summary, which
    shows the cursor at 1 while the file holds nothing; the next pass
    uploads the same video again.  The save of the skip branch, in the
    same circumstances, ends the pass with the error. *)
Theorem save_failure_swallowed :
  let E := env_read_only [entry_A] in
  let r := main E false Absent in
  calls r = [Materialize video_A;
             Publish video_A (output_file (lit "A"))
               (request_body E (lit "first") FALLBACK_DESCRIPTION);
             Save (mkHistory (Some 1%Z) (Some [lit "A"]));
             Print ErrorUploading] ∧
  result r = Returned (UploadSummary 0 1 1 1 (AllVideosUploaded 1)) ∧
  disk_after r = Absent ∧
  calls (main (env_ok [entry_A]) false (disk_after r))
  = [Materialize video_A;
     Publish video_A (output_file (lit "A"))
       (request_body E (lit "first") FALLBACK_DESCRIPTION);
     Save (mkHistory (Some 1%Z) (Some [lit "A"]));
     Print (SuccessfullyUploaded 1)] ∧
  result (main E false (Stored (mkHistory (Some 0%Z) (Some [lit "A"]))))
  = Raised OSError.
Proof. by vm_compute. Qed.

(** ** The summary *)

Lemma count_app p t1 t2 : count p (t1 ++ t2) = count p t1 + count p t2.
Proof. unfold count. by rewrite List.filter_app, length_app. Qed.






(** * Further properties *)

(** ** Enumeration *)

(** X1: The listing has one descriptor per entry, none dropped or merged,
    in the reverse of the order yt-dlp gave; and it is empty when yt-dlp
    raises or its result has no entries. *)
Theorem listing_oldest_first (E : env) (entries : list entry) :
  (extract_info E = Some (Some entries) →
     length (get_all_tiktok_videos E) = length entries ∧
     ∀ i e, entries !! i = Some e →
       get_all_tiktok_videos E !! (length entries - S i)
       = Some (video_of_entry E e)) ∧
  (extract_info E = None ∨ extract_info E = Some None →
     get_all_tiktok_videos E = []).
Proof.
  unfold get_all_tiktok_videos. split.
  - intros ->. rewrite length_reverse, length_fmap. split; [done|].
    intros i e He.
    assert (i < length entries) as Hi by (by eapply lookup_lt_Some).
    rewrite reverse_lookup by (rewrite length_fmap; lia).
    rewrite length_fmap, list_lookup_fmap.
    replace (length entries - S (length entries - S i)) with i by lia.
    by rewrite He.
  - by intros [-> | ->].
Qed.

(** C, B, A listed newest first: A is processed first, C last. *)
Lemma listing_oldest_first_witness :
  let E := env_ok [entry_C; entry_B; entry_A] in
  length (get_all_tiktok_videos E) = 3 ∧
  get_all_tiktok_videos E !! 0 = Some (video_of_entry E entry_A) ∧
  get_all_tiktok_videos env_no_listing = [].
Proof.
  intros E.
  destruct (listing_oldest_first E [entry_C; entry_B; entry_A])
    as [Hsome _].
  destruct (listing_oldest_first env_no_listing []) as [_ Hnone].
  destruct Hsome as [Hlen Hat]; [reflexivity|].
  split; [exact Hlen|]. split; [|apply Hnone; by left].
  exact (Hat 2 entry_A eq_refl).
Defined.

(** X2: The url of a descriptor is the entry's url when it has a non-empty
    one, else its non-empty webpage url, else the address built from the
    account name and the id (the text None when there is no id); it is
    never empty. *)
Theorem entry_url_choice (E : env) (e : entry) :
  entry_url E e ≠ [] ∧
  (∀ u, e !! "url" = Some u → u ≠ [] → entry_url E e = u) ∧
  (∀ w, e !! "url" = None ∨ e !! "url" = Some [] →
        e !! "webpage_url" = Some w → w ≠ [] → entry_url E e = w) ∧
  (e !! "url" = None ∨ e !! "url" = Some [] →
   e !! "webpage_url" = None ∨ e !! "webpage_url" = Some [] →
   entry_url E e = lit "https://www.tiktok.com/@" ++ TIKTOK_USERNAME E
                   ++ lit "/video/" ++ default (lit "None") (e !! "id")).
Proof.
  unfold entry_url. repeat split.
  - destruct (e !! "url") as [[|??]|], (e !! "webpage_url") as [[|??]|];
      done.
  - intros u -> Hu. by destruct u.
  - intros w Hurl -> Hw. destruct Hurl as [-> | ->]; by destruct w.
  - intros [-> | ->] [-> | ->]; done.
Qed.

(** An entry with only an id gets the built address; one with an empty
    url and a webpage url gets the webpage url. *)
Lemma entry_url_choice_witness :
  entry_url (env_ok []) entry_A
  = lit "https://www.tiktok.com/@someone/video/A" ∧
  entry_url (env_ok []) (<["url" := []]> {["webpage_url" := lit "w"]})
  = lit "w".
Proof.
  destruct (entry_url_choice (env_ok []) entry_A) as (_ & _ & _ & Hbuilt).
  destruct (entry_url_choice (env_ok [])
              (<["url" := []]> {["webpage_url" := lit "w"]}))
    as (_ & _ & Hweb & _).
  split.
  - rewrite Hbuilt; [by vm_compute|by left|by left].
  - apply Hweb; [by right|by vm_compute|done].
Defined.

(** ** Download *)

(** X3: Two videos share a local file only if they have the same id. *)
Theorem output_file_inj (i j : str) :
  output_file i = output_file j → i = j.
Proof.
  unfold output_file. intros H.
  apply app_inv_head in H. apply app_inv_head in H.
  apply app_inv_head in H. by apply app_inv_tail in H.
Qed.

Lemma output_file_inj_witness :
  output_file (lit "A") = output_file (lit "A") ∧ lit "A" = lit "A".
Proof.
  split; [reflexivity|]. by apply (output_file_inj (lit "A") (lit "A")).
Defined.

(** X4: For a listed video [download_tiktok_video] neither raises nor fails
    for want of a url: it returns the path named after the id when the
    file is already there or the download returns, and [None] only when
    the file is not there and the download raises. *)
Theorem listed_video_download (E : env) (idx : nat) (v : video) :
  v ∈ get_all_tiktok_videos E →
  ∃ i, v !! "id" = Some i ∧
    download_tiktok_video E idx v
    = inr (if path_exists E idx || ydl_download E idx
           then Some (output_file i) else None).
Proof.
  intros Hv. destruct (listed_video E v Hv) as [e ->].
  exists (default (lit "unknown") (e !! "id")).
  split; [apply video_of_entry_id|].
  unfold download_tiktok_video.
  rewrite video_of_entry_id, video_of_entry_url.
  by destruct (path_exists E idx), (ydl_download E idx).
Qed.

Lemma listed_video_download_witness :
  download_tiktok_video (env_ok [entry_A]) 0 video_A
  = inr (Some (output_file (lit "A"))).
Proof.
  destruct (listed_video_download (env_ok [entry_A]) 0 video_A)
    as (i & Hi & ->).
  - vm_compute. apply list_elem_of_here.
  - vm_compute in Hi. by injection Hi as <-.
Defined.

(** ** Title *)

(** X5: Whatever the title, the one sent has at most 100 characters and
    starts with the same 97 characters; cutting twice is cutting once,
    and the title goes through unchanged exactly when it has at most 100
    characters. *)
Theorem limit_title_bound (t : str) :
  length (limit_title t) ≤ 100 ∧
  take 97 (limit_title t) = take 97 t ∧
  limit_title (limit_title t) = limit_title t ∧
  (limit_title t = t ↔ length t ≤ 100).
Proof.
  destruct (decide (100 < length t)) as [Hlen|Hlen].
  - destruct (limit_title_long t Hlen) as [Heq H100].
    split; [lia|]. split; [|split].
    + rewrite Heq, take_app_le by (rewrite length_take; lia).
      rewrite take_take. by replace (97 `min` 97) with 97 by lia.
    + apply limit_title_short. lia.
    + split; [|lia]. intros Hsame. rewrite Hsame in H100. lia.
  - assert (limit_title t = t) as Heq by (apply limit_title_short; lia).
    rewrite !Heq. split; [lia|]. split; [done|]. split; [done|].
    split; [lia|done].
Qed.

(** A title of 120 characters is cut to 100, and is not sent as it is. *)
Lemma limit_title_bound_witness :
  length (limit_title (replicate 120 65%N)) ≤ 100 ∧
  limit_title (replicate 120 65%N) ≠ replicate 120 65%N.
Proof.
  destruct (limit_title_bound (replicate 120 65%N)) as (Hle & _ & _ & Hiff).
  split; [exact Hle|]. intros Heq. apply Hiff in Heq.
  vm_compute in Heq. lia.
Defined.

(** ** What a pass writes *)

Lemma loop_body_writes_complete E ua ci n idx v s d :
  writes_complete d s →
  writes_complete d (state_of (loop_body E ua ci n idx v s)).
Proof.
  intros (Hb & Ht & Hd). unfold writes_complete, complete_or in *.
  body_cases; rewrite ?Forall_app, ?Forall_singleton; unfold history_of; simpl.
  all: repeat split; eauto.
  all: try match goal with
    | H : bool_decide (_ ∈ _) = true |- _ =>
      apply bool_decide_eq_true in H;
      destruct Hb as [Hb|Hb]; rewrite Hb in *; simpl;
      [|by apply elem_of_nil in H]
    end; eauto 6.
Qed.

(** X6: Every record a pass saves has both keys, whatever the file it
    started from lacked: after a pass the file is untouched, or does not
    parse, or holds a cursor and an id list. *)
Theorem saved_records_complete (E : env) (upload_all : bool) (d : file) :
  Forall complete_save (calls (main E upload_all d)) ∧
  complete_or d (disk_after (main E upload_all d)).
Proof.
  destruct (main_cases E upload_all d)
    as [[-> ->]|(h & vs & _ & _ & -> & ->)]; [by split; [|left]|].
  assert (writes_complete d (initial_state d h)) as Hinit.
  { unfold writes_complete, initial_state; simpl. repeat split; [|done|by left].
    destruct (h_uploaded_ids h); simpl; auto. }
  eapply (loop_preserves (writes_complete d) (λ _, True)) in Hinit
    as (_ & Ht & Hd); [done|..].
  - intros. by apply loop_body_writes_complete.
  - by apply Forall_true.
Qed.

Lemma loop_body_ids_extend E ua ci n idx v s l0 :
  ids_extend l0 s → ids_extend l0 (state_of (loop_body E ua ci n idx v s)).
Proof.
  intros (Hp & Hb & Hd). unfold ids_extend.
  body_cases; repeat split; auto; try by apply prefix_app_r.
  all: right; unfold persisted_ids, history_of; simpl.
  all: try by apply prefix_app_r.
  all: match goal with
    | H : bool_decide (_ ∈ _) = true |- _ =>
      apply bool_decide_eq_true in H;
      destruct Hb as [Hb|Hb]; rewrite Hb in *; simpl;
      [done|by apply elem_of_nil in H]
    end.
Qed.

Lemma main_ids_extend E ua d :
  disk_after (main E ua d) = Malformed
  ∨ persisted_ids d `prefix_of` persisted_ids (disk_after (main E ua d)).
Proof.
  destruct (main_cases E ua d)
    as [[_ ->]|(h & vs & Hload & _ & _ & ->)]; [by right|].
  assert (ids_extend (persisted_ids d) (initial_state d h)) as Hinit.
  { unfold ids_extend, initial_state, persisted_ids; simpl. rewrite Hload.
    repeat split; [done| |by right].
    destruct (h_uploaded_ids h); simpl; auto. }
  eapply (loop_preserves (ids_extend (persisted_ids d)) (λ _, True)) in Hinit
    as (_ & _ & Hd); [done|..].
  - intros. by apply loop_body_ids_extend.
  - by apply Forall_true.
Qed.

Lemma passes_malformed (runs : list (env * bool)) :
  (passes runs Malformed).1 = Malformed.
Proof.
  induction runs as [|[E ua] runs IH]; simpl; [done|].
  by destruct (passes runs Malformed).
Qed.

(** X7: Ids are only ever appended: after any number of passes the id list
    in the file, when the file still parses, starts with the list that
    was there before. *)
Theorem ids_only_appended (runs : list (env * bool)) (d : file) :
  (passes runs d).1 = Malformed
  ∨ persisted_ids d `prefix_of` persisted_ids (passes runs d).1.
Proof.
  revert d. induction runs as [|[E ua] runs IH]; intros d; simpl; [by right|].
  specialize (IH (disk_after (main E ua d))).
  destruct (main_ids_extend E ua d) as [Hm|Hp].
  - left. rewrite Hm. pose proof (passes_malformed runs) as Hruns.
    by destruct (passes runs Malformed).
  - destruct (passes runs (disk_after (main E ua d))) as [d' t]; simpl in *.
    destruct IH as [->|IH]; [by left|]. right. by etrans.
Qed.

Lemma NoDup_snoc_fresh (l : list str) (i : str) :
  NoDup l → i ∉ l → NoDup (l ++ [i]).
Proof.
  intros Hl Hi. apply NoDup_app. split; [done|]. split.
  - intros x Hx ->%list_elem_of_singleton. done.
  - apply NoDup_singleton.
Qed.

Lemma loop_body_ids_distinct E ua ci n idx v s :
  ids_distinct s → ids_distinct (state_of (loop_body E ua ci n idx v s)).
Proof.
  intros (Hn & Hb & Hd). unfold ids_distinct.
  body_cases; unfold persisted_ids, history_of; simpl;
    repeat match goal with
    | H : bool_decide _ = false |- _ => apply bool_decide_eq_false in H
    end;
    repeat split; auto using NoDup_snoc_fresh, NoDup_nil_2.
  all: destruct (history_ids s); simpl; auto using NoDup_nil_2.
Qed.

Lemma main_ids_distinct E ua d :
  NoDup (persisted_ids d) → NoDup (persisted_ids (disk_after (main E ua d))).
Proof.
  intros Hd.
  destruct (main_cases E ua d)
    as [[_ ->]|(h & vs & Hload & _ & _ & ->)]; [done|].
  assert (ids_distinct (initial_state d h)) as Hinit.
  { unfold ids_distinct, initial_state; simpl.
    unfold persisted_ids in Hd. rewrite Hload in Hd.
    repeat split; [done| |by unfold persisted_ids; rewrite Hload].
    destruct (h_uploaded_ids h); simpl; auto. }
  eapply (loop_preserves ids_distinct (λ _, True)) in Hinit
    as (_ & _ & Hafter); [done|..].
  - intros. by apply loop_body_ids_distinct.
  - by apply Forall_true.
Qed.

(** X8: No id is recorded twice: if the id list in the file has no
    duplicate, it has none after any number of passes, whatever the
    listing repeats and whatever fails. *)
Theorem ids_stay_distinct (runs : list (env * bool)) (d : file) :
  NoDup (persisted_ids d) → NoDup (persisted_ids (passes runs d).1).
Proof.
  revert d. induction runs as [|[E ua] runs IH]; intros d Hd; simpl; [done|].
  specialize (IH _ (main_ids_distinct E ua d Hd)).
  by destruct (passes runs (disk_after (main E ua d))).
Qed.

(** A listing that gives the same video twice, processed in bulk and
    then once more: the file holds its id once. *)
Lemma ids_stay_distinct_witness :
  NoDup (persisted_ids
           (passes [(env_ok [entry_A; entry_A], true);
                    (env_ok [entry_A; entry_A], false)] Absent).1) ∧
  persisted_ids
    (passes [(env_ok [entry_A; entry_A], true);
             (env_ok [entry_A; entry_A], false)] Absent).1 = [lit "A"].
Proof.
  split; [|by vm_compute].
  apply (ids_stay_distinct _ Absent). simpl. apply NoDup_nil_2.
Defined.

(** ** Delays *)

Lemma loop_body_sleeps_follow_success E ua ci n idx v s :
  sleeps_follow_success ua s →
  sleeps_follow_success ua (state_of (loop_body E ua ci n idx v s)).
Proof.
  intros [Hle Hsingle]. unfold sleeps_follow_success.
  body_cases; rewrite ?count_app; unfold count in *; simpl; split;
    try lia; intros ->; try done; simpl in *; try lia.
  all: specialize (Hsingle eq_refl); lia.
Qed.

Lemma loop_sleeps E ua ci n vs :
  ∀ idx s,
  count is_sleep (trace (state_of (loop E ua ci n idx vs s)))
  ≤ count is_sleep (trace s)
    + ((idx + length vs) `min` (n - 1) - idx `min` (n - 1)).
Proof.
  induction vs as [|v vs IH]; intros idx s; cbn [loop length state_of]; [lia|].
  assert (count is_sleep (trace (state_of (loop_body E ua ci n idx v s)))
          ≤ count is_sleep (trace s) + (S idx `min` (n - 1) - idx `min` (n - 1)))
    as Hb.
  { assert ((Z.of_nat idx < Z.of_nat n - 1)%Z →
            1 ≤ S idx `min` (n - 1) - idx `min` (n - 1)) as Hk by lia.
    set (k := S idx `min` (n - 1) - idx `min` (n - 1)) in *. clearbody k.
    body_cases; rewrite ?count_app; unfold count; simpl; try lia.
    all: match goal with
      | H : _ && bool_decide _ = true |- _ =>
        apply andb_true_iff in H as [_ H]; apply bool_decide_eq_true in H
      end; specialize (Hk ltac:(done)); lia. }
  destruct (loop_body E ua ci n idx v s) as [s1|e s1]; cbn [state_of] in *.
  - specialize (IH (S idx) s1). lia.
  - lia.
Qed.

Lemma videos_to_process_length ua (all : list video) c vs :
  videos_to_process ua all c = inr vs →
  length vs ≤ length all ∧ (ua = false → length vs = 1).
Proof.
  unfold videos_to_process, py_slice_from. destruct ua.
  - intros [= <-]. split; [|done]. case_match; rewrite length_drop; lia.
  - destruct (py_index all c) as [v|] eqn:Hv; [|done]. intros [= <-].
    split; [|done]. apply py_index_elem_of in Hv.
    destruct all; [by apply elem_of_nil in Hv|simpl; lia].
Qed.

Lemma loop_body_last_sleep E ua ci n idx e s :
  ends_with_sleep
    (trace (state_of (loop_body E ua ci n idx (video_of_entry E e) s))) →
  (Z.of_nat idx < Z.of_nat n - 1)%Z ∧
  ∃ s', loop_body E ua ci n idx (video_of_entry E e) s = Next s'.
Proof.
  unfold ends_with_sleep, loop_body, save, save_uploaded_history,
    download_tiktok_video, upload_to_youtube.
  rewrite video_of_entry_title, video_of_entry_id, video_of_entry_url.
  case_bool_decide.
  - destruct (json_dump E idx); simpl; rewrite last_snoc; by intros [k [=]].
  - destruct (path_exists E idx), (ydl_download E idx),
      (videos_insert E idx), (json_dump E idx); simpl;
      try (rewrite last_snoc; by intros [k [=]]).
    all: destruct (ua && bool_decide _) eqn:Hsl; simpl;
      try (rewrite last_snoc; by intros [k [=]]).
    all: intros _; apply andb_true_iff in Hsl as [_ Hsl];
      apply bool_decide_eq_true in Hsl; split; [done|by eexists].
Qed.

Lemma loop_last_sleep E ua ci n vs :
  Forall (λ v, ∃ e, v = video_of_entry E e) vs →
  ∀ idx s, idx + length vs = n →
  (vs = [] → ¬ ends_with_sleep (trace s)) →
  ¬ ends_with_sleep (trace (state_of (loop E ua ci n idx vs s))).
Proof.
  intros Hvs. induction Hvs as [|v vs [e ->] _ IH]; intros idx s Hn Hs.
  { by apply Hs. }
  cbn [loop length] in *.
  pose proof (loop_body_last_sleep E ua ci n idx e s) as Hb.
  destruct (loop_body E ua ci n idx (video_of_entry E e) s) as [s1|x s1];
    cbn [state_of] in *.
  - apply IH; [lia|]. intros -> Hends. simpl in Hn.
    destruct (Hb Hends) as [Hlt _]. lia.
  - intros Hends. by destruct (Hb Hends) as [_ [s' ?]].
Qed.

(** X9: The delay of line 269 is made only in bulk mode, only after a
    success, and not after the last video of the window: a pass over a
    window of n videos makes at most n - 1 delays, its last call is
    never a delay, and single mode makes no delay. *)
Theorem delays_between_uploads (E : env) (upload_all : bool) (d : file) :
  count is_sleep (calls (main E upload_all d))
  ≤ count said_success (calls (main E upload_all d)) ∧
  (upload_all = false → count is_sleep (calls (main E upload_all d)) = 0) ∧
  count is_sleep (calls (main E upload_all d))
  ≤ length (get_all_tiktok_videos E) - 1 ∧
  (∀ h vs, load_uploaded_history d = inr h →
     videos_to_process upload_all (get_all_tiktok_videos E) (initial_index h)
     = inr vs →
     count is_sleep (calls (main E upload_all d)) ≤ length vs - 1) ∧
  ¬ ends_with_sleep (calls (main E upload_all d)).
Proof.
  destruct (main_cases E upload_all d)
    as [[-> _]|(h & vs & Hload & Hvs & -> & _)].
  { unfold count, ends_with_sleep; simpl.
    split; [lia|]. split; [done|]. split; [lia|]. split; [intros; lia|].
    by intros [k ?]. }
  assert (sleeps_follow_success upload_all (initial_state d h)) as Hinit.
  { unfold sleeps_follow_success, initial_state, count; simpl. split; lia. }
  eapply (loop_preserves (sleeps_follow_success upload_all) (λ _, True))
    in Hinit as [Hle Hsingle].
  - pose proof (loop_sleeps E upload_all (initial_index h) (length vs) vs 0
                  (initial_state d h)) as Hn.
    change (count is_sleep (trace (initial_state d h))) with 0 in Hn.
    destruct (videos_to_process_length _ _ _ _ Hvs) as [Hlen _].
    split; [exact Hle|]. split; [exact Hsingle|]. split; [lia|]. split.
    + intros h' ws Hload' Hws. rewrite Hload in Hload'.
      injection Hload' as <-. rewrite Hvs in Hws. injection Hws as <-. lia.
    + apply loop_last_sleep; [|done|by intros _ [k ?]].
      apply videos_to_process_listed in Hvs.
      eapply Forall_impl; [exact Hvs|]. intros v Hv. by apply listed_video.
  - intros. by apply loop_body_sleeps_follow_success.
  - by apply Forall_true.
Qed.

(** A, B, C listed with A recorded and the cursor at 1, bulk mode: the
    window is B, C; two successes, one delay, none after C. *)
Lemma delays_between_uploads_witness :
  let E := env_ok [entry_C; entry_B; entry_A] in
  let d := Stored (mkHistory (Some 1%Z) (Some [lit "A"])) in
  count said_success (calls (main E true d)) = 2 ∧
  count is_sleep (calls (main E true d)) ≤ 2 - 1 ∧
  count is_sleep (calls (main E false Absent)) = 0.
Proof.
  intros E d.
  destruct (delays_between_uploads E true d) as (_ & _ & _ & Hwindow & _).
  destruct (delays_between_uploads E false Absent) as (_ & Hsingle & _).
  split; [by vm_compute|]. split; [|by apply Hsingle].
  exact (Hwindow (mkHistory (Some 1%Z) (Some [lit "A"]))
           (drop 1 (get_all_tiktok_videos E)) eq_refl eq_refl).
Defined.

(** ** Work done by a pass *)

Lemma loop_body_idle_with E ua ci n idx v s l0 :
  (∃ i, v !! "id" = Some i ∧ i ∈ l0) →
  idle_with l0 s → idle_with l0 (state_of (loop_body E ua ci n idx v s)).
Proof.
  intros (i & Hi & Hin) (Hsub & Hm & Hp). unfold idle_with.
  unfold loop_body. destruct (v !! "title"); [|done].
  rewrite Hi, bool_decide_eq_true_2 by auto.
  unfold save, save_uploaded_history.
  destruct (json_dump E idx); simpl; rewrite !count_app, Hm, Hp; done.
Qed.

(** X10: When every listed video has its id in the file, a pass downloads
    nothing and uploads nothing, in either mode and wherever the cursor
    is. *)
Theorem nothing_to_do (E : env) (upload_all : bool) (d : file) :
  (∀ v, v ∈ get_all_tiktok_videos E →
        ∃ i, v !! "id" = Some i ∧ i ∈ persisted_ids d) →
  count is_materialize (calls (main E upload_all d)) = 0 ∧
  count is_publish (calls (main E upload_all d)) = 0.
Proof.
  intros Hall.
  destruct (main_cases E upload_all d)
    as [[-> _]|(h & vs & Hload & Hvs & -> & _)]; [done|].
  assert (idle_with (persisted_ids d) (initial_state d h)) as Hinit.
  { unfold idle_with, initial_state, persisted_ids; simpl.
    by rewrite Hload. }
  eapply (loop_preserves (idle_with (persisted_ids d))
            (λ v, ∃ i, v !! "id" = Some i ∧ i ∈ persisted_ids d))
    in Hinit as (_ & Hm & Hp); [done|..].
  - intros. by apply loop_body_idle_with.
  - apply videos_to_process_listed in Hvs.
    eapply Forall_impl; [exact Hvs|]. done.
Qed.

(** A and B listed, both ids in the file but the cursor still at 0:
    the bulk pass only moves the cursor. *)
Lemma nothing_to_do_witness :
  let d := Stored (mkHistory (Some 0%Z) (Some [lit "A"; lit "B"])) in
  let r := main (env_ok [entry_B; entry_A]) true d in
  count is_materialize (calls r) = 0 ∧ count is_publish (calls r) = 0 ∧
  disk_after r = Stored (mkHistory (Some 2%Z) (Some [lit "A"; lit "B"])).
Proof.
  intros d r.
  destruct (nothing_to_do (env_ok [entry_B; entry_A]) true d) as [Hm Hp].
  - intros v Hv. vm_compute in Hv.
    apply elem_of_cons in Hv as [->|Hv].
    + exists (lit "A"). split; [by vm_compute|]. apply list_elem_of_here.
    + apply list_elem_of_singleton in Hv as ->.
      exists (lit "B"). split; [by vm_compute|].
      apply list_elem_of_further, list_elem_of_here.
  - split; [exact Hm|]. split; [exact Hp|]. by vm_compute.
Defined.

Lemma loop_body_attempt E ua ci n idx v s :
  count is_publish (trace s) ≤ count is_materialize (trace s) →
  count is_publish (trace (state_of (loop_body E ua ci n idx v s)))
  ≤ count is_materialize (trace (state_of (loop_body E ua ci n idx v s))) ∧
  count is_materialize (trace (state_of (loop_body E ua ci n idx v s)))
  ≤ S (count is_materialize (trace s)).
Proof.
  intros Hle. body_cases; rewrite ?count_app; unfold count in *; simpl; lia.
Qed.

Lemma loop_attempts E ua ci n vs :
  ∀ idx s,
  count is_publish (trace s) ≤ count is_materialize (trace s) →
  count is_publish (trace (state_of (loop E ua ci n idx vs s)))
  ≤ count is_materialize (trace (state_of (loop E ua ci n idx vs s))) ∧
  count is_materialize (trace (state_of (loop E ua ci n idx vs s)))
  ≤ count is_materialize (trace s) + length vs.
Proof.
  induction vs as [|v vs IH]; intros idx s Hle; cbn [loop length state_of];
    [lia|].
  destruct (loop_body_attempt E ua ci n idx v s Hle) as [Hb1 Hb2].
  destruct (loop_body E ua ci n idx v s) as [s1|e s1]; cbn [state_of] in *.
  - destruct (IH (S idx) s1 Hb1). lia.
  - lia.
Qed.

(** X11: A pass tries each video of its window once: it makes no more
    downloads than there are listed videos, at most one in single mode,
    and no upload without a download before it. *)
Theorem one_attempt_per_video (E : env) (upload_all : bool) (d : file) :
  count is_publish (calls (main E upload_all d))
  ≤ count is_materialize (calls (main E upload_all d)) ∧
  count is_materialize (calls (main E upload_all d))
  ≤ length (get_all_tiktok_videos E) ∧
  (upload_all = false →
   count is_materialize (calls (main E upload_all d)) ≤ 1).
Proof.
  destruct (main_cases E upload_all d)
    as [[-> _]|(h & vs & _ & Hvs & -> & _)].
  { unfold count; simpl. repeat split; lia. }
  destruct (videos_to_process_length _ _ _ _ Hvs) as [Hlen Hone].
  destruct (loop_attempts E upload_all (initial_index h) (length vs) vs 0
              (initial_state d h)) as [H1 H2]; [done|].
  change (count is_materialize (trace (initial_state d h))) with 0 in H2.
  split; [done|]. split; [lia|]. intros Hsingle.
  specialize (Hone Hsingle). lia.
Qed.

(** Three videos listed, upload of the first failing, single mode: one
    download, one upload, no second try in the same pass. *)
Lemma one_attempt_per_video_witness :
  let r := main (env_upload_fails [entry_C; entry_B; entry_A] 0) false Absent in
  count is_materialize (calls r) = 1 ∧ count is_publish (calls r) = 1 ∧
  count is_materialize (calls r) ≤ 1.
Proof.
  intros r.
  destruct (one_attempt_per_video
              (env_upload_fails [entry_C; entry_B; entry_A] 0) false Absent)
    as (_ & _ & Hone).
  split; [by vm_compute|]. split; [by vm_compute|]. by apply Hone.
Defined.

Lemma loop_body_uploads_follow_downloads E ua ci n idx v s :
  uploads_follow_downloads s →
  uploads_follow_downloads (state_of (loop_body E ua ci n idx v s)).
Proof.
  intros Hs. unfold uploads_follow_downloads.
  body_cases; try done; intros v' f' b';
    rewrite ?elem_of_app, ?list_elem_of_singleton;
    intros Hin.
  all: repeat match goal with
    | H : _ ∨ _ |- _ => destruct H as [H|H]
    | H : Publish _ _ _ = _ |- _ => simplify_eq
    end;
    try (destruct (Hs _ _ _ ltac:(eassumption)) as [? ?];
         split; [done|]; rewrite ?elem_of_app; by auto 10).
  all: split; [by eauto|]; rewrite ?elem_of_app, ?list_elem_of_singleton;
    by auto 10.
Qed.

(** X12: What a pass uploads for a video is the file named after the id of
    that video, and it has called the download for that video before. *)
Theorem uploads_the_downloaded_file (E : env) (upload_all : bool) (d : file)
    (v : video) (f : str) (b : body) :
  Publish v f b ∈ calls (main E upload_all d) →
  (∃ i, v !! "id" = Some i ∧ f = output_file i) ∧
  Materialize v ∈ calls (main E upload_all d).
Proof.
  destruct (main_cases E upload_all d)
    as [[-> _]|(h & vs & _ & _ & -> & _)]; [by intros ?%elem_of_nil|].
  apply (loop_preserves uploads_follow_downloads (λ _, True)).
  - intros. by apply loop_body_uploads_follow_downloads.
  - by apply Forall_true.
  - intros ???. by intros ?%elem_of_nil.
Qed.

Lemma uploads_the_downloaded_file_witness :
  let r := main (env_ok [entry_A]) false Absent in
  Publish video_A (output_file (lit "A"))
    (request_body (env_ok [entry_A]) (lit "first") FALLBACK_DESCRIPTION)
  ∈ calls r ∧
  Materialize video_A ∈ calls r.
Proof.
  intros r.
  assert (Publish video_A (output_file (lit "A"))
            (request_body (env_ok [entry_A]) (lit "first") FALLBACK_DESCRIPTION)
          ∈ calls r) as Hin.
  { vm_compute. apply list_elem_of_further, list_elem_of_here. }
  split; [exact Hin|].
  exact (proj2 (uploads_the_downloaded_file _ _ _ _ _ _ Hin)).
Defined.

Lemma loop_body_one_success_for E ua ci n idx v s x :
  v !! "id" = Some x →
  one_success_for x s →
  one_success_for x (state_of (loop_body E ua ci n idx v s)).
Proof.
  intros Hx [Hle Hin]. unfold one_success_for.
  body_cases; rewrite ?count_app; unfold count in *; simpl;
    repeat match goal with
    | H : bool_decide _ = false |- _ => apply bool_decide_eq_false in H
    end.
  all: try (split; [lia|intros ?; rewrite ?elem_of_app; left; apply Hin; lia]).
  all: try (split; [lia|intros ?; apply Hin; lia]).
  all: assert (length (List.filter said_success (trace s)) = 0)
         by (destruct (decide (length (List.filter said_success (trace s)) = 1));
             [exfalso; auto|lia]).
  all: split; [lia|intros _; rewrite elem_of_app, list_elem_of_singleton; auto].
Qed.

(** X13: When all listed videos carry the same id, as all entries without an
    id do (they get the id unknown), a pass records at most one of them
    as uploaded: the others are skipped as already done. *)
Theorem same_id_one_success (E : env) (upload_all : bool) (d : file)
    (x : str) :
  (∀ v, v ∈ get_all_tiktok_videos E → v !! "id" = Some x) →
  count said_success (calls (main E upload_all d)) ≤ 1.
Proof.
  intros Hall.
  destruct (main_cases E upload_all d)
    as [[-> _]|(h & vs & _ & Hvs & -> & _)]; [unfold count; simpl; lia|].
  assert (one_success_for x (initial_state d h)) as Hinit.
  { unfold one_success_for, initial_state, count; simpl. split; [lia|done]. }
  eapply (loop_preserves (one_success_for x) (λ v, v !! "id" = Some x))
    in Hinit as [Hle _]; [done|..].
  - intros. by apply loop_body_one_success_for.
  - apply videos_to_process_listed in Hvs.
    eapply Forall_impl; [exact Hvs|]. done.
Qed.

(** Two entries with a title and no id, bulk mode, nothing failing: one
    is uploaded, the other skipped, and the cursor ends at 2. *)
Lemma same_id_one_success_witness :
  let E := env_ok [{["title" := lit "one"]}; {["title" := lit "two"]}] in
  count said_success (calls (main E true Absent)) ≤ 1 ∧
  count said_skip (calls (main E true Absent)) = 1 ∧
  disk_after (main E true Absent)
  = Stored (mkHistory (Some 2%Z) (Some [lit "unknown"])).
Proof.
  intros E. split; [|split; by vm_compute].
  apply (same_id_one_success E true Absent (lit "unknown")).
  intros v Hv. vm_compute in Hv.
  apply elem_of_cons in Hv as [->|Hv]; [by vm_compute|].
  apply list_elem_of_singleton in Hv as ->. by vm_compute.
Defined.

(** ** A pass in which everything fails *)

Lemma loop_body_all_fail E ua ci n idx e s :
  every_attempt_fails E →
  default (lit "unknown") (e !! "id") ∉ uploaded_ids s →
  ∃ s', loop_body E ua ci n idx (video_of_entry E e) s = Next s' ∧
    disk s' = disk s ∧ history_index s' = history_index s ∧
    uploaded_ids s' = uploaded_ids s ∧
    successful_uploads s' = successful_uploads s ∧
    failed_uploads s' = S (failed_uploads s).
Proof.
  intros Hfail Hin. unfold loop_body, download_tiktok_video, upload_to_youtube.
  rewrite video_of_entry_title, video_of_entry_id, video_of_entry_url.
  rewrite bool_decide_eq_false_2 by done.
  destruct (Hfail idx) as [[-> ->]|Hup]; [by eexists|].
  destruct (path_exists E idx), (ydl_download E idx); simpl;
    rewrite ?Hup; by eexists.
Qed.

Lemma loop_all_fail E ua ci n vs :
  every_attempt_fails E →
  ∀ idx s,
  Forall (λ v, ∃ e, v = video_of_entry E e ∧
               default (lit "unknown") (e !! "id") ∉ uploaded_ids s) vs →
  ∃ s', loop E ua ci n idx vs s = Next s' ∧
    disk s' = disk s ∧ history_index s' = history_index s ∧
    successful_uploads s' = successful_uploads s ∧
    failed_uploads s' = failed_uploads s + length vs.
Proof.
  intros Hfail. induction vs as [|v vs IH]; intros idx s Hvs; simpl.
  { exists s. repeat split; lia. }
  inversion_clear Hvs as [|? ? (e & -> & Hin) Hrest].
  destruct (loop_body_all_fail E ua ci n idx e s Hfail Hin)
    as (s1 & -> & Hd & Hi & Hu & Hok & Hko).
  destruct (IH (S idx) s1) as (s' & -> & Hd' & Hi' & Hok' & Hko').
  { eapply Forall_impl; [exact Hrest|]. intros v' (e' & -> & ?).
    exists e'. by rewrite Hu. }
  exists s'. repeat split; [congruence..|lia].
Qed.

Lemma main_all_fail E ua d h vs :
  load_uploaded_history d = inr h →
  (0 ≤ initial_index h < Z.of_nat (length (get_all_tiktok_videos E)))%Z →
  youtube_service E = true →
  every_attempt_fails E →
  (∀ v i, v ∈ get_all_tiktok_videos E → v !! "id" = Some i →
          i ∉ persisted_ids d) →
  videos_to_process ua (get_all_tiktok_videos E) (initial_index h) = inr vs →
  ∃ s', result (main E ua d) = summary ua (get_all_tiktok_videos E) s' ∧
    disk_after (main E ua d) = d ∧
    history_index s' = h_current_index h ∧
    successful_uploads s' = 0 ∧ failed_uploads s' = length vs.
Proof.
  intros Hload Hc Hyt Hfail Hfresh Hvs.
  rewrite (main_window E ua d h vs Hload Hc Hyt Hvs).
  destruct (loop_all_fail E ua (initial_index h) (length vs) vs Hfail 0
              (initial_state d h)) as (s' & -> & Hd & Hi & Hok & Hko).
  { apply videos_to_process_listed in Hvs.
    eapply Forall_impl; [exact Hvs|]. intros v Hv.
    destruct (listed_video E v Hv) as [e ->]. exists e. split; [done|].
    unfold initial_state; simpl.
    specialize (Hfresh _ _ Hv (video_of_entry_id E e)).
    unfold persisted_ids in Hfresh. by rewrite Hload in Hfresh. }
  exists s'. by repeat split.
Qed.

(** X14: When every download or upload of the window fails and no listed id
    is in the file yet, the pass leaves the file as it was and its
    summary reads no success, one failure per video of the window, the
    cursor where it was and the remaining count length - cursor. *)
Theorem all_attempts_fail (E : env) (upload_all : bool) (d : file)
    (h : History) (c : Z) (vs : list video) :
  load_uploaded_history d = inr h →
  h_current_index h = Some c →
  (0 ≤ c < Z.of_nat (length (get_all_tiktok_videos E)))%Z →
  youtube_service E = true →
  every_attempt_fails E →
  (∀ v i, v ∈ get_all_tiktok_videos E → v !! "id" = Some i →
          i ∉ persisted_ids d) →
  videos_to_process upload_all (get_all_tiktok_videos E) c = inr vs →
  disk_after (main E upload_all d) = d ∧
  result (main E upload_all d)
  = Returned (UploadSummary 0 (length vs) c
                (length (get_all_tiktok_videos E))
                (Remaining (Z.of_nat (length (get_all_tiktok_videos E)) - c)%Z
                           (negb upload_all))).
Proof.
  intros Hload Hcur Hc Hyt Hfail Hfresh Hvs.
  assert (initial_index h = c) as Hci
    by (unfold initial_index; by rewrite Hcur).
  rewrite <- Hci in Hc, Hvs.
  destruct (main_all_fail E upload_all d h vs Hload Hc Hyt Hfail Hfresh Hvs)
    as (s' & -> & -> & Hi & Hok & Hko).
  split; [done|]. unfold summary. rewrite Hi, Hcur, Hok, Hko.
  rewrite bool_decide_eq_false_2 by lia. done.
Qed.

(** A, B, C listed, nothing done, every download failing, bulk mode:
    three failures, file still absent. *)
Lemma all_attempts_fail_witness :
  let E := env_offline [entry_C; entry_B; entry_A] in
  disk_after (main E true Absent) = Absent ∧
  result (main E true Absent)
  = Returned (UploadSummary 0 3 0 3 (Remaining 3 false)).
Proof.
  intros E.
  apply (all_attempts_fail E true Absent (mkHistory (Some 0%Z) (Some [])) 0
           (get_all_tiktok_videos E)).
  - reflexivity.
  - reflexivity.
  - split; by vm_compute.
  - reflexivity.
  - intros idx. by left.
  - intros v i _ _. apply not_elem_of_nil.
  - by vm_compute.
Defined.

(** X15: The summary reads the cursor with a plain subscript (line 282): on
    a file that parses but has no cursor key, a pass in which every
    download or upload fails ends with a KeyError on that key instead of
    a summary, the file left as it was. *)
Theorem summary_needs_cursor (E : env) (upload_all : bool) (d : file)
    (h : History) :
  load_uploaded_history d = inr h →
  h_current_index h = None →
  get_all_tiktok_videos E ≠ [] →
  youtube_service E = true →
  every_attempt_fails E →
  (∀ v i, v ∈ get_all_tiktok_videos E → v !! "id" = Some i →
          i ∉ persisted_ids d) →
  result (main E upload_all d) = Raised (KeyError "current_index") ∧
  disk_after (main E upload_all d) = d.
Proof.
  intros Hload Hcur Hall Hyt Hfail Hfresh.
  assert (initial_index h = 0%Z) as Hci
    by (unfold initial_index; by rewrite Hcur).
  assert (0 ≤ initial_index h
          < Z.of_nat (length (get_all_tiktok_videos E)))%Z as Hc.
  { rewrite Hci. destruct (get_all_tiktok_videos E); [done|simpl; lia]. }
  assert (∃ ws, videos_to_process upload_all (get_all_tiktok_videos E)
                  (initial_index h) = inr ws) as [ws Hws].
  { unfold videos_to_process. destruct upload_all; [by eexists|].
    destruct (py_index_in_range _ _ Hc) as (v & _ & ->). by eexists. }
  destruct (main_all_fail E upload_all d h ws Hload Hc Hyt Hfail Hfresh Hws)
    as (s' & -> & -> & Hi & _).
  split; [|done]. unfold summary. by rewrite Hi, Hcur.
Qed.

(** A file holding only an id list, one video listed, its download
    failing. *)
Lemma summary_needs_cursor_witness :
  result (main (env_offline [entry_A]) false
               (Stored (mkHistory None (Some []))))
  = Raised (KeyError "current_index").
Proof.
  apply (summary_needs_cursor (env_offline [entry_A]) false
           (Stored (mkHistory None (Some []))) (mkHistory None (Some []))).
  - reflexivity.
  - reflexivity.
  - by vm_compute.
  - reflexivity.
  - intros idx. by left.
  - intros v i _ _. apply not_elem_of_nil.
Defined.

(** ** A cursor below zero *)

(** X16: The cursor read from the file is only compared with the length of
    the listing (line 202), so a negative one is taken as a Python
    index: single mode takes the video counted from the end of the
    listing, or dies with an IndexError before any call when the cursor
    is below minus the length; bulk mode takes the videos from that
    position on, the whole listing when the cursor is below minus the
    length. *)
Theorem negative_cursor (E : env) (d : file) (h : History) :
  load_uploaded_history d = inr h →
  get_all_tiktok_videos E ≠ [] →
  youtube_service E = true →
  (initial_index h < 0)%Z →
  let all := get_all_tiktok_videos E in
  let len := Z.of_nat (length all) in
  ((initial_index h < - len)%Z →
     main E false d = mkRun (Raised IndexError) d [] ∧
     videos_to_process true all (initial_index h) = inr all) ∧
  ((- len ≤ initial_index h)%Z →
     (∃ v, all !! Z.to_nat (len + initial_index h) = Some v ∧
           videos_to_process false all (initial_index h) = inr [v]) ∧
     videos_to_process true all (initial_index h)
     = inr (drop (Z.to_nat (len + initial_index h)) all)).
Proof.
  intros Hload Hall Hyt Hneg all len. subst all len.
  unfold videos_to_process, py_index, py_slice_from.
  destruct (Z.leb_spec 0 (initial_index h)) as [?|_]; [lia|].
  split.
  - intros Hlow.
    destruct (Z.leb_spec (- Z.of_nat (length (get_all_tiktok_videos E)))
                (initial_index h)) as [?|_]; [lia|].
    split.
    + unfold main. rewrite Hload.
      destruct (get_all_tiktok_videos E) as [|v0 all] eqn:Heq; [done|].
      rewrite bool_decide_eq_false_2 by lia. rewrite Hyt. simpl negb.
      cbv iota. unfold videos_to_process, py_index.
      destruct (Z.leb_spec 0 (initial_index h)) as [?|_]; [lia|].
      destruct (Z.leb_spec (- Z.of_nat (length (v0 :: all)))
                  (initial_index h)) as [?|_]; [lia|]. done.
    + by replace (Z.to_nat (0 `max`
        (Z.of_nat (length (get_all_tiktok_videos E)) + initial_index h)))
        with 0 by lia.
  - intros Hin.
    destruct (Z.leb_spec (- Z.of_nat (length (get_all_tiktok_videos E)))
                (initial_index h)) as [_|?]; [|lia].
    split.
    + destruct (lookup_lt_is_Some_2 (get_all_tiktok_videos E)
        (Z.to_nat (Z.of_nat (length (get_all_tiktok_videos E))
                   + initial_index h))) as [v Hv]; [lia|].
      exists v. by rewrite Hv.
    + by replace (0 `max`
        (Z.of_nat (length (get_all_tiktok_videos E)) + initial_index h))%Z
        with (Z.of_nat (length (get_all_tiktok_videos E)) + initial_index h)%Z
        by lia.
Qed.

(** A, B, C listed and a file holding the cursor -1: single mode
    uploads C, the newest video, and writes the cursor 0; with the
    cursor -4 it raises. *)
Lemma negative_cursor_witness :
  let E := env_ok [entry_C; entry_B; entry_A] in
  disk_after (main E false (Stored (mkHistory (Some (-1)%Z) (Some []))))
  = Stored (mkHistory (Some 0%Z) (Some [lit "C"])) ∧
  main E false (Stored (mkHistory (Some (-4)%Z) (Some [])))
  = mkRun (Raised IndexError) (Stored (mkHistory (Some (-4)%Z) (Some []))) [].
Proof.
  intros E. split; [by vm_compute|].
  destruct (negative_cursor E (Stored (mkHistory (Some (-4)%Z) (Some [])))
              (mkHistory (Some (-4)%Z) (Some []))) as [Hlow _].
  - reflexivity.
  - by vm_compute.
  - reflexivity.
  - by vm_compute.
  - apply Hlow. by vm_compute.
Defined.

(** ** Passes one after the other *)

Lemma single_no_failures E d h :
  load_uploaded_history d = inr h →
  (0 ≤ initial_index h < Z.of_nat (length (get_all_tiktok_videos E)))%Z →
  no_failures E →
  persisted_index (disk_after (main E false d)) = Some (initial_index h + 1)%Z.
Proof.
  intros Hload Hc HE.
  destruct (py_index_in_range _ _ Hc) as (v & Hv & Hpy).
  assert (videos_to_process false (get_all_tiktok_videos E) (initial_index h)
          = inr [v]) as Hvs by (unfold videos_to_process; by rewrite Hpy).
  rewrite (main_window E false d h [v] Hload Hc (proj1 HE) Hvs).
  destruct (loop_no_failures E false (initial_index h) 1 [v] HE)
    with (idx := 0) (s := initial_state d h) as (s' & Hs' & _ & Hlast).
  { apply Forall_singleton. apply (listed_video E).
    by eapply list_elem_of_lookup_2. }
  simpl length. rewrite Hs'. simpl.
  destruct Hlast as [Hd Hi]; [done|].
  rewrite Hd.
  change (persisted_index (Stored (history_of s')))
    with (Some (default 0%Z (history_index s'))).
  rewrite Hi. simpl. f_equal. lia.
Qed.

(** X17: Single passes resume one another: with no collaborator failing, k
    single passes started with the cursor at c inside the listing leave
    it at c + k, as long as that does not pass the end. *)
Theorem single_passes_add_up (E : env) (k : nat) (d : file) (c : Z) :
  no_failures E →
  persisted_index d = Some c →
  (0 ≤ c)%Z →
  (c + Z.of_nat k ≤ Z.of_nat (length (get_all_tiktok_videos E)))%Z →
  persisted_index (passes (replicate k (E, false)) d).1
  = Some (c + Z.of_nat k)%Z.
Proof.
  intros HE. revert d c. induction k as [|k IH]; intros d c Hd Hlo Hhi.
  { simpl. rewrite Hd. f_equal. lia. }
  simpl.
  unfold persisted_index in Hd.
  destruct (load_uploaded_history d) as [?|h] eqn:Hload; [done|].
  injection Hd as Hd.
  assert (persisted_index (disk_after (main E false d)) = Some (c + 1)%Z)
    as Hstep.
  { rewrite <- Hd. apply single_no_failures; [done| |done]. lia. }
  specialize (IH _ _ Hstep ltac:(lia) ltac:(lia)).
  destruct (passes (replicate k (E, false)) (disk_after (main E false d)))
    as [d' t]; simpl in *.
  rewrite IH. f_equal. lia.
Qed.

(** Three videos, three single passes from a missing file: cursor 3. *)
Lemma single_passes_add_up_witness :
  persisted_index
    (passes (replicate 3 (env_ok [entry_C; entry_B; entry_A], false))
            Absent).1 = Some 3%Z.
Proof.
  apply (single_passes_add_up (env_ok [entry_C; entry_B; entry_A]) 3 Absent 0).
  - split; [done|]. intros idx. repeat split; eauto.
  - reflexivity.
  - lia.
  - by vm_compute.
Defined.

(** ** A bulk pass in which nothing fails *)

Lemma video_ids_cons E e vs :
  video_ids (video_of_entry E e :: vs)
  = default (lit "unknown") (e !! "id") :: video_ids vs.
Proof. unfold video_ids. simpl. by rewrite video_of_entry_id. Qed.

Lemma loop_body_no_failures_fresh E ua ci n idx e s :
  no_failures E →
  default (lit "unknown") (e !! "id") ∉ uploaded_ids s →
  ∃ s', loop_body E ua ci n idx (video_of_entry E e) s = Next s' ∧
    uploaded_ids s' = uploaded_ids s ++ [default (lit "unknown") (e !! "id")] ∧
    count is_publish (trace s') = S (count is_publish (trace s)) ∧
    disk s' = Stored (history_of s') ∧ history_ids s' = true.
Proof.
  intros [_ Hok] Hin. destruct (Hok idx) as (Hdl & [y Hy] & Hw).
  unfold loop_body, save, save_uploaded_history, download_tiktok_video,
    upload_to_youtube.
  rewrite video_of_entry_title, video_of_entry_id, video_of_entry_url, Hw, Hy.
  rewrite bool_decide_eq_false_2 by done.
  destruct (path_exists E idx); simpl in *; [|rewrite Hdl]; simpl.
  all: destruct (ua && _); eexists; (split; [reflexivity|]); simpl;
    rewrite ?count_app; unfold count; simpl; repeat split; lia.
Qed.

Lemma loop_no_failures_fresh E ua ci n vs :
  no_failures E → Forall (λ v, ∃ e, v = video_of_entry E e) vs →
  ∀ idx s,
  NoDup (uploaded_ids s ++ video_ids vs) →
  ∃ s', loop E ua ci n idx vs s = Next s' ∧
    uploaded_ids s' = uploaded_ids s ++ video_ids vs ∧
    count is_publish (trace s') = count is_publish (trace s) + length vs ∧
    (vs ≠ [] → disk s' = Stored (history_of s') ∧ history_ids s' = true).
Proof.
  intros HE Hvs. induction Hvs as [|v vs [e ->] _ IH]; intros idx s Hnd.
  { exists s. simpl. rewrite app_nil_r. repeat split; try done; lia. }
  rewrite video_ids_cons in Hnd |- *.
  assert (default (lit "unknown") (e !! "id") ∉ uploaded_ids s) as Hfresh.
  { apply NoDup_app in Hnd as (_ & Hdis & _). intros Hin.
    apply (Hdis _ Hin). apply list_elem_of_here. }
  destruct (loop_body_no_failures_fresh E ua ci n idx e s HE Hfresh)
    as (s1 & Hs1 & Hu1 & Hp1 & Hd1 & Hb1).
  destruct (IH (S idx) s1) as (s' & Hs' & Hu' & Hp' & Hlast).
  { rewrite Hu1, <- app_assoc. done. }
  exists s'. simpl. rewrite Hs1. split; [done|].
  split; [by rewrite Hu', Hu1, <- app_assoc|]. split; [lia|]. intros _.
  destruct vs as [|v' vs']; [|by apply Hlast].
  simpl in Hs'. by simplify_eq.
Qed.

(** X18: With no collaborator failing and the ids of the remaining videos
    distinct and not yet in the file, a bulk pass uploads each remaining
    video once and leaves in the file the ids that were there followed
    by the ids of these videos, oldest first. *)
Theorem bulk_records_every_video (E : env) (d : file) (h : History) :
  load_uploaded_history d = inr h →
  (0 ≤ initial_index h < Z.of_nat (length (get_all_tiktok_videos E)))%Z →
  no_failures E →
  let rest := drop (Z.to_nat (initial_index h)) (get_all_tiktok_videos E) in
  NoDup (persisted_ids d ++ video_ids rest) →
  persisted_ids (disk_after (main E true d))
  = persisted_ids d ++ video_ids rest ∧
  count is_publish (calls (main E true d)) = length rest.
Proof.
  intros Hload Hc HE rest Hnd.
  assert (videos_to_process true (get_all_tiktok_videos E) (initial_index h)
          = inr rest) as Hvs.
  { unfold videos_to_process. rewrite py_slice_from_in_range; [done|lia]. }
  rewrite (main_window E true d h rest Hload Hc (proj1 HE) Hvs).
  assert (persisted_ids d = uploaded_ids (initial_state d h)) as Hids.
  { unfold persisted_ids. by rewrite Hload. }
  destruct (loop_no_failures_fresh E true (initial_index h) (length rest)
              rest HE) with (idx := 0) (s := initial_state d h)
    as (s' & -> & Hu & Hp & Hlast).
  { apply Forall_forall. intros w Hw. apply (listed_video E).
    by apply (subseteq_drop (Z.to_nat (initial_index h))). }
  { by rewrite <- Hids. }
  assert (rest ≠ []) as Hne.
  { intros Hnil. assert (length rest = 0) as H0 by (by rewrite Hnil).
    unfold rest in H0. rewrite length_drop in H0. lia. }
  destruct (Hlast Hne) as [Hd Hb]. simpl. split; [|done].
  rewrite Hd, Hids, <- Hu. unfold persisted_ids, history_of; simpl.
  by rewrite Hb.
Qed.

(** A, B, C listed with A already recorded and the cursor at 1: the
    bulk pass uploads B and C and the file lists A, B, C. *)
Lemma bulk_records_every_video_witness :
  let E := env_ok [entry_C; entry_B; entry_A] in
  let d := Stored (mkHistory (Some 1%Z) (Some [lit "A"])) in
  persisted_ids (disk_after (main E true d)) = [lit "A"; lit "B"; lit "C"] ∧
  count is_publish (calls (main E true d)) = 2.
Proof.
  intros E d.
  destruct (bulk_records_every_video E d (mkHistory (Some 1%Z) (Some [lit "A"])))
    as [Hids Hcount].
  - reflexivity.
  - split; by vm_compute.
  - split; [done|]. intros idx. repeat split; eauto.
  - vm_compute. repeat constructor; rewrite ?elem_of_cons, ?elem_of_nil;
      intros H; repeat destruct H as [H|H]; done.
  - split; [rewrite Hids|rewrite Hcount]; by vm_compute.
Defined.

(** ** The cursor over several passes *)

Lemma persisted_index_None d : persisted_index d = None → d = Malformed.
Proof. by destruct d. Qed.

(** X19: The cursor in the file never goes down, over any number of passes
    in any modes and whatever fails, as long as the file parses. *)
Theorem cursor_never_decreases (runs : list (env * bool)) (d : file)
    (c c' : Z) :
  persisted_index d = Some c →
  persisted_index (passes runs d).1 = Some c' →
  (c ≤ c')%Z.
Proof.
  revert d c. induction runs as [|[E ua] runs IH]; intros d c Hc Hc'.
  { simpl in Hc'. rewrite Hc in Hc'. injection Hc' as <-. lia. }
  simpl in Hc'.
  destruct (persisted_index (disk_after (main E ua d))) as [c1|] eqn:Hc1.
  - pose proof (persisted_index_monotone E ua d c c1 Hc Hc1) as Hle.
    specialize (IH (disk_after (main E ua d)) c1 Hc1).
    destruct (passes runs (disk_after (main E ua d))) as [d' t]; simpl in *.
    specialize (IH Hc'). lia.
  - apply persisted_index_None in Hc1. rewrite Hc1 in Hc'.
    pose proof (passes_malformed runs) as Hm.
    destruct (passes runs Malformed) as [d' t]; simpl in *.
    by rewrite Hm in Hc'.
Qed.

(** A, B listed; a bulk pass in which the download of A fails, then a
    single pass: the cursor goes from 0 to 2 and stays there. *)
Lemma cursor_never_decreases_witness :
  let runs := [(env_download_fails [entry_B; entry_A] 0, true);
               (env_ok [entry_B; entry_A], false)] in
  persisted_index (passes runs Absent).1 = Some 2%Z ∧ (0 ≤ 2)%Z.
Proof.
  intros runs.
  assert (persisted_index (passes runs Absent).1 = Some 2%Z) as H2
    by (by vm_compute).
  split; [exact H2|].
  exact (cursor_never_decreases runs Absent 0 2 eq_refl H2).
Defined.

Lemma loop_body_saves E ua ci n idx v s h :
  history_ids s = true ∨ uploaded_ids s = [] →
  Save h ∈ trace (state_of (loop_body E ua ci n idx v s)) →
  Save h ∈ trace s ∨
  ∃ i, v !! "id" = Some i ∧
       h_current_index h = Some (ci + Z.of_nat idx + 1)%Z ∧
       i ∈ default [] (h_uploaded_ids h).
Proof.
  intros Hb. body_cases; rewrite ?elem_of_app, ?list_elem_of_singleton;
    intros Hin; try (by left).
  all: repeat match type of Hin with
       | _ ∨ _ => destruct Hin as [Hin|Hin]
       end; try (by left); try done.
  all: simplify_eq; right; eexists; split; [done|]; split; [done|].
  all: unfold history_of; simpl.
  all: try (rewrite elem_of_app, list_elem_of_singleton; by right).
  all: match goal with
    | H : bool_decide _ = true |- _ => apply bool_decide_eq_true in H
    end.
  all: destruct Hb as [Hb|Hb]; rewrite Hb in *; simpl; [done|].
  all: by match goal with H : _ ∈ [] |- _ => apply elem_of_nil in H end.
Qed.

Lemma loop_saves E ua ci n vs :
  ∀ idx s h,
  history_ids s = true ∨ uploaded_ids s = [] →
  Save h ∈ trace (state_of (loop E ua ci n idx vs s)) →
  Save h ∈ trace s ∨
  ∃ k v i, vs !! k = Some v ∧ v !! "id" = Some i ∧
       h_current_index h = Some (ci + Z.of_nat (idx + k) + 1)%Z ∧
       i ∈ default [] (h_uploaded_ids h).
Proof.
  induction vs as [|v vs IH]; intros idx s h Hb Hin; simpl in *; [by left|].
  pose proof (loop_body_ids_bound E ua ci n idx v s Hb) as Hb1.
  pose proof (loop_body_saves E ua ci n idx v s h Hb) as Hstep.
  destruct (loop_body E ua ci n idx v s) as [s1|e s1]; simpl in *.
  - destruct (IH (S idx) s1 h Hb1 Hin) as [Hin1|(k & w & i & Hk & Hi & Hc & Hids)].
    + destruct (Hstep Hin1) as [?|(i & Hi & Hc & Hids)]; [by left|].
      right. exists 0, v, i. repeat split; try done.
      rewrite Hc. f_equal. lia.
    + right. exists (S k), w, i. repeat split; try done.
      rewrite Hc. f_equal. lia.
  - destruct (Hstep Hin) as [?|(i & Hi & Hc & Hids)]; [by left|].
    right. exists 0, v, i. repeat split; try done.
    rewrite Hc. f_equal. lia.
Qed.

(** X20: The cursor is saved as an index plus one only for a video that is
    done: every record a pass saves has, beside the cursor k + 1 counted
    from the cursor the pass started with, the id of the k-th video of
    the window in its id list. *)
Theorem saved_cursor_follows_completion (E : env) (upload_all : bool)
    (d : file) (h0 h : History) (vs : list video) :
  load_uploaded_history d = inr h0 →
  videos_to_process upload_all (get_all_tiktok_videos E) (initial_index h0)
  = inr vs →
  Save h ∈ calls (main E upload_all d) →
  ∃ k v i, vs !! k = Some v ∧ v !! "id" = Some i ∧
    h_current_index h = Some (initial_index h0 + Z.of_nat k + 1)%Z ∧
    i ∈ default [] (h_uploaded_ids h).
Proof.
  intros Hload Hvs Hin.
  destruct (main_cases E upload_all d)
    as [[Hnil _]|(h1 & ws & Hload1 & Hws & Hcalls & _)].
  { rewrite Hnil in Hin. by apply elem_of_nil in Hin. }
  rewrite Hload in Hload1. injection Hload1 as <-.
  rewrite Hvs in Hws. injection Hws as <-.
  rewrite Hcalls in Hin.
  assert (history_ids (initial_state d h0) = true
          ∨ uploaded_ids (initial_state d h0) = []) as Hb.
  { unfold initial_state; simpl. destruct (h_uploaded_ids h0); simpl; auto. }
  destruct (loop_saves E upload_all (initial_index h0) (length vs) vs 0
              (initial_state d h0) h Hb Hin) as [Hnil|Hdone].
  - by apply elem_of_nil in Hnil.
  - exact Hdone.
Qed.

Lemma saved_cursor_follows_completion_witness :
  let E := env_ok [entry_B; entry_A] in
  let h := mkHistory (Some 2%Z) (Some [lit "A"; lit "B"]) in
  Save h ∈ calls (main E true Absent) ∧
  ∃ k v i, get_all_tiktok_videos E !! k = Some v ∧ v !! "id" = Some i ∧
    h_current_index h = Some (0 + Z.of_nat k + 1)%Z ∧
    i ∈ default [] (h_uploaded_ids h).
Proof.
  intros E h.
  assert (Save h ∈ calls (main E true Absent)) as Hin.
  { vm_compute. do 7 apply list_elem_of_further. apply list_elem_of_here. }
  split; [exact Hin|].
  exact (saved_cursor_follows_completion E true Absent
           (mkHistory (Some 0%Z) (Some [])) h (get_all_tiktok_videos E)
           eq_refl eq_refl Hin).
Defined.

(** ** Authentication *)

Ltac mem_cases H :=
  repeat (apply elem_of_cons in H as [H|H]; [try discriminate H|]);
  try (by apply elem_of_nil in H).

(** X21: The browser flow is started only when there is no token file or the
    stored credentials are invalid and cannot be refreshed; it is never
    started together with a refresh, so a refresh that fails is not
    followed by the flow. *)
Theorem flow_only_when_needed (A : auth_env) (t : token_file) :
  (RunFlow ∈ auth_calls (get_youtube_service A t) →
     (t = NoToken ∨
      ∃ c, t = Token c ∧ valid c = false ∧
           (expired c = false ∨ refresh_token c = None
            ∨ refresh_token c = Some [])) ∧
     ∀ c, Refresh c ∉ auth_calls (get_youtube_service A t)) ∧
  (∀ c, Refresh c ∈ auth_calls (get_youtube_service A t) →
     t = Token c ∧ valid c = false ∧ expired c = true ∧
     (∃ k r, refresh_token c = Some (k :: r)) ∧
     (refresh A c = None →
      service (get_youtube_service A t) = inl RefreshError ∧
      token_after (get_youtube_service A t) = t)).
Proof.
  unfold get_youtube_service, run_flow, save_token.
  destruct t as [| |c0]; [| |destruct (valid c0) eqn:Hv];
    [| | |destruct (expired c0) eqn:He,
                   (refresh_token c0) as [[|k r]|] eqn:Hr;
          try destruct (refresh A c0) as [c1|] eqn:Hrf];
    destruct (run_local_server A) as [cf|], (pickle_dump A); simpl.
  all: split; [intros HA|intros c HR].
  all: try (exfalso; mem_cases HA; fail).
  all: try (exfalso; mem_cases HR; fail).
  all: try (split; [by eauto 10|intros c HR; mem_cases HR]).
  all: mem_cases HR; injection HR as ->.
  all: repeat split; eauto; try congruence.
Qed.

Lemma flow_only_when_needed_witness :
  let expired_creds := mkCredentials false true (Some (lit "r")) in
  let A := mkAuthEnv (λ _, None) (Some (mkCredentials true false None))
                     Written in
  auth_calls (get_youtube_service A (Token expired_creds))
  = [Refresh expired_creds] ∧
  service (get_youtube_service A (Token expired_creds)) = inl RefreshError.
Proof.
  intros expired_creds A. split; [reflexivity|].
  destruct (flow_only_when_needed A (Token expired_creds)) as [_ Hrefresh].
  destruct (Hrefresh expired_creds) as (_ & _ & _ & _ & Hfail).
  - apply list_elem_of_here.
  - by apply Hfail.
Defined.



(** ** The response of an upload *)

(** X23: The loop of lines 168-171 ends at the first answer that carries a
    response: it returns the id of that response, has printed the
    percentages of the answers before it and its own, and reads nothing
    that follows; a response without an id is a KeyError. *)
Theorem first_response_ends_upload (pre post : list chunk)
    (status : option nat) (resp : gmap string (list N)) :
  Forall in_progress pre →
  next_chunks (pre ++ Chunk status (Some resp) :: post)
  = (omap progress_of pre ++ match status with Some p => [p] | None => [] end,
     match resp !! "id" with Some i => Uploaded i | None => UploadRaised end).
Proof.
  intros Hpre. induction Hpre as [|c pre [st ->] _ IH]; simpl.
  - by destruct (resp !! "id").
  - rewrite IH. by destruct st.
Qed.

Lemma first_response_ends_upload_witness :
  next_chunks [Chunk (Some 40) None; Chunk None None;
               Chunk (Some 100) (Some {["id" := lit "yt1"]}); ChunkRaises]
  = ([40; 100], Uploaded (lit "yt1")).
Proof.
  etrans.
  - apply (first_response_ends_upload
             [Chunk (Some 40) None; Chunk None None]
             [ChunkRaises] (Some 100) {["id" := lit "yt1"]}).
    repeat constructor; by eexists.
  - by vm_compute.
Defined.
